(** * Invite / feedback service (app.py): a shallow embedding

    The development follows [app.py]: the two tables [Feedback] and
    [UserFeedback], the validator [is_valid_uuid], and the two request
    handlers [send_invite] and [submit_feedback].

    Modelling conventions.
    - A Python [str] is a Rocq [string] whose characters are the code points
      of the text (code points above 255 are outside the model).
    - The value returned by [request.get_json()] is a [pyval].
    - A table is a finite map from its primary key to its row.
    - A handler is a computation over the [World] (the committed tables and
      the number of calls made so far to the identifier generator and to the
      mail transport) that either returns a response or raises. *)

From Stdlib Require Import ZArith Ascii String List Lia.
From stdpp Require Import base option gmap strings list fin_maps pretty.

Local Open Scope string_scope.
Local Set Warnings "-register-all".

(** ** Python values and exceptions *)

(** Values produced by the JSON decoder.  A JSON number is an integer
    (numbers with a fraction are outside the model).  The pairs of a [PDict]
    carry distinct keys, in insertion order. *)
Inductive pyval : Type :=
  | PNone
  | PBool (b : bool)
  | PNum (n : Z)
  | PStr (s : string)
  | PList (l : list pyval)
  | PDict (d : list (string * pyval)).

Inductive exn : Type :=
  | TypeError
  | AttributeError
  | ValueError
  | KeyError
  | IntegrityError
  | StaleDataError
  | DBAPIError
  | OverflowError.

Inductive result (A : Type) : Type :=
  | Ok (a : A)
  | Raise (e : exn).
Arguments Ok {A} a.
Arguments Raise {A} e.

Definition result_bind {A B : Type} (r : result A) (k : A → result B) : result B :=
  match r with
  | Ok a => k a
  | Raise e => Raise e
  end.

(** ** Text helpers (the [str] methods the code relies on) *)

Module Str.

Fixpoint startswith (p s : string) : bool :=
  match p, s with
  | EmptyString, _ => true
  | String c p', String d s' => Ascii.eqb c d && startswith p' s'
  | String _ _, EmptyString => false
  end.

(** [old in s] for a non-empty [old]. *)
Fixpoint contains (old s : string) : bool :=
  startswith old s ||
  match s with
  | EmptyString => false
  | String _ s' => contains old s'
  end.

(** [s.replace(old, '')], scanning left to right; [skip] counts the
    characters of a match that remain to be dropped. *)
Fixpoint remove_from (old : string) (skip : nat) (s : string) : string :=
  match s with
  | EmptyString => EmptyString
  | String c s' =>
      match skip with
      | S k => remove_from old k s'
      | O =>
          if startswith old s
          then remove_from old (Nat.pred (String.length old)) s'
          else String c (remove_from old 0 s')
      end
  end.

Definition remove (old s : string) : string :=
  match old with
  | EmptyString => s
  | _ => remove_from old 0 s
  end.

Definition mem (c : ascii) (chars : string) : bool :=
  existsb (Ascii.eqb c) (list_ascii_of_string chars).

Fixpoint lstrip (chars s : string) : string :=
  match s with
  | EmptyString => EmptyString
  | String c s' => if mem c chars then lstrip chars s' else s
  end.

Fixpoint rstrip (chars s : string) : string :=
  match s with
  | EmptyString => EmptyString
  | String c s' =>
      match rstrip chars s' with
      | EmptyString => if mem c chars then EmptyString else String c EmptyString
      | r => String c r
      end
  end.

(** [s.strip(chars)] *)
Definition strip (chars s : string) : string := rstrip chars (lstrip chars s).

(** The one-character strings a [str] yields when iterated. *)
Fixpoint chars (s : string) : list string :=
  match s with
  | EmptyString => []
  | String c s' => String c EmptyString :: chars s'
  end.

End Str.

(** ** [int(text, 16)] and [uuid.UUID] (Python standard library) *)

Module PyInt.

(** Digit value of a character in base 16. *)
Definition hex_digit (c : ascii) : option Z :=
  let n := Z.of_N (N_of_ascii c) in
  if (48 <=? n)%Z && (n <=? 57)%Z then Some (n - 48)%Z
  else if (97 <=? n)%Z && (n <=? 102)%Z then Some (n - 87)%Z
  else if (65 <=? n)%Z && (n <=? 70)%Z then Some (n - 55)%Z
  else None.

(** Before parsing, white space beyond ASCII (here NEL and NBSP) becomes a
    blank; ASCII is kept; anything else becomes a question mark, which no
    later step accepts. *)
Definition to_ascii_space (c : ascii) : ascii :=
  let n := N_of_ascii c in
  if (n <? 127)%N then c
  else if (n =? 133)%N || (n =? 160)%N then " "%char
  else "?"%char.

Definition is_space (c : ascii) : bool :=
  let n := N_of_ascii c in
  ((9 <=? n)%N && (n <=? 13)%N) || (n =? 32)%N.

Fixpoint skip_spaces (l : list ascii) : list ascii :=
  match l with
  | c :: l' => if is_space c then skip_spaces l' else l
  | [] => []
  end.

Definition is_underscore (c : ascii) : bool := Ascii.eqb c "_"%char.

(** The digit loop: digits and single underscores between them.  [prev]
    tells whether the previous character was an underscore, [seen] whether
    a character was consumed.  Returns the value and the rest. *)
Fixpoint digits (prev seen : bool) (acc : Z) (l : list ascii)
  : option (Z * bool * list ascii) :=
  match l with
  | c :: l' =>
      match hex_digit c with
      | Some d => digits false true (acc * 16 + d)%Z l'
      | None =>
          if is_underscore c
          then if prev then None else digits true true acc l'
          else if prev then None else Some (acc, seen, l)
      end
  | [] => if prev then None else Some (acc, seen, [])
  end.

Definition skip_sign (l : list ascii) : bool * list ascii :=
  match l with
  | c :: l' =>
      if Ascii.eqb c "+"%char then (false, l')
      else if Ascii.eqb c "-"%char then (true, l')
      else (false, l)
  | [] => (false, [])
  end.

Definition skip_prefix (l : list ascii) : list ascii :=
  match l with
  | z :: x :: l' =>
      if Ascii.eqb z "0"%char && (Ascii.eqb x "x"%char || Ascii.eqb x "X"%char)
      then match l' with
           | u :: l'' => if is_underscore u then l'' else l'
           | [] => l'
           end
      else l
  | _ => l
  end.

(** [int(text, 16)]: [None] stands for [ValueError]. *)
Definition parse16 (text : string) : option Z :=
  let l := skip_spaces (map to_ascii_space (list_ascii_of_string text)) in
  let '(neg, l) := skip_sign l in
  let l := skip_prefix l in
  match l with
  | c :: _ => if is_underscore c then None else
      match digits false false 0 l with
      | Some (v, true, rest) =>
          match skip_spaces rest with
          | [] => Some (if neg then (- v)%Z else v)
          | _ :: _ => None
          end
      | _ => None
      end
  | [] => None
  end.

End PyInt.


Module uuid.

(** [uuid.UUID(hex, version=version).int].  The [version] argument is not
    compared with the text: it overwrites the variant and version bits of
    the parsed number. *)
Definition UUID (hex : pyval) (version : option Z) : result Z :=
  match hex with
  | PNone => Raise TypeError
  | PStr hex =>
      let hex := Str.remove "uuid:" (Str.remove "urn:" hex) in
      let hex := Str.remove "-" (Str.strip "{}" hex) in
      if negb (String.length hex =? 32)%nat then Raise ValueError else
      match PyInt.parse16 hex with
      | None => Raise ValueError
      | Some int =>
          if negb ((0 <=? int)%Z && (int <? Z.shiftl 1 128)%Z)
          then Raise ValueError else
          match version with
          | None => Ok int
          | Some version =>
              if negb ((1 <=? version)%Z && (version <=? 5)%Z)
              then Raise ValueError else
              let int := Z.land int (Z.lnot (Z.shiftl 49152 48)) in
              let int := Z.lor int (Z.shiftl 32768 48) in
              let int := Z.land int (Z.lnot (Z.shiftl 61440 64)) in
              let int := Z.lor int (Z.shiftl version 76) in
              Ok int
          end
      end
  | _ => Raise AttributeError
  end.

(** The [version] property of a UUID object: bits 76 to 79. *)
Definition version (int : Z) : Z := Z.land (Z.shiftr int 76) 15.

End uuid.

(** [is_valid_uuid]: only [ValueError] is caught. *)
Definition is_valid_uuid (uuid_str : pyval) : result bool :=
  match uuid.UUID uuid_str (Some 4%Z) with
  | Ok _ => Ok true
  | Raise ValueError => Ok false
  | Raise e => Raise e
  end.


(** On text, [is_valid_uuid] never raises. *)
Definition valid_uuid_text (s : string) : bool :=
  match is_valid_uuid (PStr s) with
  | Ok b => b
  | Raise _ => false
  end.

(** ** Operations of Python values used by the handlers *)

Definition is_str (v : pyval) : bool :=
  match v with PStr _ => true | _ => false end.

Definition str_eq (key : string) (v : pyval) : bool :=
  match v with PStr s => String.eqb s key | _ => false end.

Fixpoint dict_get (d : list (string * pyval)) (key : string) : option pyval :=
  match d with
  | [] => None
  | (k, v) :: d' => if String.eqb k key then Some v else dict_get d' key
  end.

(** [key in container] for a string [key]. *)
Definition py_contains (key : string) (container : pyval) : result bool :=
  match container with
  | PDict d => Ok (bool_decide (is_Some (dict_get d key)))
  | PList l => Ok (existsb (str_eq key) l)
  | PStr s => Ok (Str.contains key s)
  | PNone | PBool _ | PNum _ => Raise TypeError
  end.

(** [container[key]] for a string [key]. *)
Definition py_getitem (container : pyval) (key : string) : result pyval :=
  match container with
  | PDict d => match dict_get d key with Some v => Ok v | None => Raise KeyError end
  | _ => Raise TypeError
  end.

(** Truth value of an object. *)
Definition py_truthy (v : pyval) : bool :=
  match v with
  | PNone => false
  | PBool b => b
  | PNum n => negb (n =? 0)%Z
  | PStr s => negb (String.eqb s "")
  | PList l => negb (Nat.eqb (length l) 0)
  | PDict d => negb (Nat.eqb (length d) 0)
  end.

(** The items a [for] loop (or a generator expression) draws from an
    object. *)
Definition py_iter (v : pyval) : result (list pyval) :=
  match v with
  | PList l => Ok l
  | PStr s => Ok (PStr <$> Str.chars s)
  | PDict d => Ok (PStr ∘ fst <$> d)
  | PNone | PBool _ | PNum _ => Raise TypeError
  end.

(** The strings among the items; after the [isinstance] guard these are all
    the items. *)
Definition as_str (v : pyval) : option string :=
  match v with PStr s => Some s | _ => None end.

(** [str(x)] inside an f-string, for [None] or a [str]. *)
Definition fmt (o : option string) : string :=
  match o with Some s => s | None => "None" end.

(** ** The tables *)

(** A table maps the primary key [id] of a row to its other columns. *)

Module Feedback.
Record t : Type := mk { email : string; submitted : bool }.
End Feedback.

Module UserFeedback.
(** [feedback] holds what the column holds after the driver bound the
    value. *)
Record t : Type := mk { email : string; feedback : pyval }.
End UserFeedback.

Record DB : Type := mkDB {
  feedback : gmap string Feedback.t;
  user_feedback : gmap string UserFeedback.t
}.

(** What a session holds between [db.session.add] or an attribute
    assignment and [db.session.commit()]. *)
Inductive pending : Type :=
  | Add_Feedback (id : string) (row : Feedback.t)
  | Add_UserFeedback (id : string) (row : UserFeedback.t)
  | Set_submitted (id : string).

(** Binding a Python value to a [Text] column declared [nullable=False],
    and what the column then holds.  [None] violates the constraint;
    containers are refused by the driver; text is stored as it is; an
    integer is bound as a 64-bit integer, which raises [OverflowError]
    outside that range, and the column keeps its decimal text; a boolean is
    bound as the integer 1 or 0. *)
Definition bind_text (v : pyval) : result pyval :=
  match v with
  | PNone => Raise IntegrityError
  | PList _ | PDict _ => Raise DBAPIError
  | PStr s => Ok (PStr s)
  | PNum n =>
      if ((- 2 ^ 63 <=? n) && (n <? 2 ^ 63))%Z
      then Ok (PStr (pretty n))
      else Raise OverflowError
  | PBool b => Ok (PStr (if b then "1" else "0"))
  end.

Definition flush_one (p : pending) (d : DB) : result DB :=
  match p with
  | Add_Feedback id row =>
      match feedback d !! id with
      | Some _ => Raise IntegrityError
      | None => Ok (mkDB (<[id := row]> (feedback d)) (user_feedback d))
      end
  | Add_UserFeedback id row =>
      match user_feedback d !! id with
      | Some _ => Raise IntegrityError
      | None =>
          result_bind (bind_text (UserFeedback.feedback row)) (λ stored,
          Ok (mkDB (feedback d)
                   (<[id := UserFeedback.mk (UserFeedback.email row) stored]>
                      (user_feedback d))))
      end
  | Set_submitted id =>
      match feedback d !! id with
      | None => Raise StaleDataError
      | Some row =>
          Ok (mkDB (<[id := Feedback.mk (Feedback.email row) true]> (feedback d))
                   (user_feedback d))
      end
  end.

(** One transaction: every pending change is applied, or none is. *)
Fixpoint flush (session : list pending) (d : DB) : result DB :=
  match session with
  | [] => Ok d
  | p :: session' => result_bind (flush_one p d) (flush session')
  end.

(** [query.filter_by(email=email)] and [query.first()]. *)
Definition filter_by_email (email : string) (tbl : gmap string Feedback.t)
  : gmap string Feedback.t :=
  filter (λ kv, Feedback.email kv.2 = email) tbl.

Definition first {A : Type} (rows : gmap string A) : option A :=
  snd <$> head (map_to_list rows).

(** [query.filter_by(id=id).first()]: the primary key selects at most one
    row. *)
Definition filter_by_id_first (id : string) (tbl : gmap string Feedback.t)
  : option Feedback.t :=
  tbl !! id.

(** ** The world around a request *)

Record Message : Type := mkMessage {
  subject : string;
  recipients : list string;
  body : string
}.

(** The collaborators: [uuid4 n] is the text of the n-th identifier drawn,
    [mail_send n msg] is [None] when the n-th call of [mail.send] returns
    and [Some err] when it raises an exception printing as [err]. *)
Record Env : Type := mkEnv {
  uuid4 : nat → string;
  mail_send : nat → Message → option string;
  validate_email : string → bool;
  BASE_URL : option string
}.

Record World : Type := mkWorld {
  db : DB;
  uuid_calls : nat;
  mail_calls : nat
}.

Definition init : World := mkWorld (mkDB ∅ ∅) 0 0.

(** A handler computation: the world after it, and what it returned or
    raised. *)
Definition M (A : Type) : Type := World → World * result A.

Definition ret {A : Type} (a : A) : M A := λ w, (w, Ok a).

Definition bind {A B : Type} (m : M A) (k : A → M B) : M B :=
  λ w, match m w with
       | (w', Ok a) => k a w'
       | (w', Raise e) => (w', Raise e)
       end.

Definition lift {A : Type} (r : result A) : M A := λ w, (w, r).

Declare Scope handler_scope.
Delimit Scope handler_scope with handler.
Notation "'let*' x ':=' m 'in' k" := (bind m (λ x, k))
  (at level 10, x name, m at level 100, k at level 200) : handler_scope.
Notation "'let*' ' p ':=' m 'in' k" := (bind m (λ x, match x with p => k end))
  (at level 10, p pattern, m at level 100, k at level 200) : handler_scope.

(** [db.session.commit()] on the given pending changes. *)
Definition commit (session : list pending) : M unit :=
  λ w, match flush session (db w) with
       | Ok d => (mkWorld d (uuid_calls w) (mail_calls w), Ok tt)
       | Raise e => (w, Raise e)
       end.

(** ** Responses *)

Inductive payload : Type :=
  | Msg (message : string)
  | Batch (success error : list string).

Definition response : Type := payload * Z.

Definition OK : Z := 200.
Definition BAD_REQUEST : Z := 400.
Definition NOT_FOUND : Z := 404.

(** ** The handlers *)

Section Handlers.

Context (env : Env).

Local Open Scope handler_scope.

(** [str(uuid.uuid4())] *)
Definition new_uuid : M string :=
  λ w, (mkWorld (db w) (S (uuid_calls w)) (mail_calls w), Ok (uuid4 env (uuid_calls w))).

(** [mail.send(msg)] under [try ... except Exception as e]: the printed
    exception, if one was raised. *)
Definition try_mail_send (msg : Message) : M (option string) :=
  λ w, (mkWorld (db w) (uuid_calls w) (S (mail_calls w)),
        Ok (mail_send env (mail_calls w) msg)).

Definition query_feedback_by_email (email : string) : M (option Feedback.t) :=
  λ w, (w, Ok (first (filter_by_email email (feedback (db w))))).

Definition query_feedback_by_id (id : string) : M (option Feedback.t) :=
  λ w, (w, Ok (filter_by_id_first id (feedback (db w)))).

(** The invitation (lines 200 and 201). *)
Definition invitation (email feedback_id : string) : Message :=
  mkMessage "Feedback Invitation" [email]
    ("Click the following link to provide anonymous feedback: "
       +:+ fmt (BASE_URL env) +:+ "/feedback/" +:+ feedback_id).

(** The body of the [for] loop of [send_invite] (lines 186 to 208). *)
Definition send_invite_body (email : string)
    (success_messages error_messages : list string)
  : M (list string * list string) :=
  let* existing := query_feedback_by_email email in
  match existing with
  | Some _ =>
      ret (success_messages,
           (error_messages ++ ["Email '" +:+ email +:+ "' already invited!"])%list)
  | None =>
      let* feedback_id := new_uuid in
      let* _ := commit [Add_Feedback feedback_id (Feedback.mk email false)] in
      let msg := invitation email feedback_id in
      let* failure := try_mail_send msg in
      match failure with
      | None =>
          ret ((success_messages ++ ["Invite sent successfully to " +:+ email])%list,
               error_messages)
      | Some e =>
          ret (success_messages,
               (error_messages
                  ++ ["Error sending invite to " +:+ email +:+ ": " +:+ e])%list)
      end
  end.

Fixpoint send_invite_loop (emails : list string)
    (success_messages error_messages : list string)
  : M (list string * list string) :=
  match emails with
  | [] => ret (success_messages, error_messages)
  | email :: emails' =>
      let* '(success_messages, error_messages) :=
        send_invite_body email success_messages error_messages in
      send_invite_loop emails' success_messages error_messages
  end.

Definition send_invite (data : pyval) : M response :=
  let* has_emails := lift (py_contains "emails" data) in
  if negb has_emails
  then ret (Msg "No 'emails' key found in the JSON payload.", BAD_REQUEST)
  else
    let* emails := lift (py_getitem data "emails") in
    if negb (py_truthy emails)
    then ret (Msg "Invalid or empty email array.", BAD_REQUEST)
    else
      let* items := lift (py_iter emails) in
      if negb (forallb is_str items)
      then ret (Msg "Invalid or empty email array.", BAD_REQUEST)
      else
        let* '(success_messages, error_messages) :=
          send_invite_loop (omap as_str items) [] [] in
        ret (Batch success_messages error_messages, OK).

Definition submit_feedback (data : pyval) : M response :=
  let* has_uuid := lift (py_contains "uuid" data) in
  let* has_feedback :=
    (if has_uuid then lift (py_contains "feedback" data) else ret false) in
  if negb has_uuid || negb has_feedback
  then ret (Msg "Invalid or missing 'uuid' or 'feedback' in the JSON payload.",
            BAD_REQUEST)
  else
    let* uuid_value := lift (py_getitem data "uuid") in
    let* feedback_text := lift (py_getitem data "feedback") in
    let* valid := lift (is_valid_uuid uuid_value) in
    if negb valid
    then ret (Msg "Invalid UUID format.", BAD_REQUEST)
    else
      match uuid_value with
      | PStr uuid_value =>
          let* feedback_entry := query_feedback_by_id uuid_value in
          match feedback_entry with
          | None =>
              ret (Msg ("UUID '" +:+ uuid_value +:+ "' not found."), NOT_FOUND)
          | Some feedback_entry =>
              if Feedback.submitted feedback_entry
              then ret (Msg "Feedback already submitted for this UUID.",
                        BAD_REQUEST)
              else if negb (validate_email env (Feedback.email feedback_entry))
              then ret (Msg "Invalid email address.", BAD_REQUEST)
              else
                let user_feedback :=
                  UserFeedback.mk (Feedback.email feedback_entry) feedback_text in
                let* _ := commit [Add_UserFeedback uuid_value user_feedback;
                                  Set_submitted uuid_value] in
                ret (Msg "Feedback submitted successfully!", OK)
          end
      | _ =>
          (* not reached: [is_valid_uuid] raised for a value that is not text *)
          lift (Raise AttributeError)
      end.

End Handlers.



(** ** The transaction of [submit_feedback] *)

(** What the transaction of lines 261 to 267 does to the tables; [text] is
    what the column holds. *)
Definition redeemed (t : string) (row : Feedback.t) (text : pyval) (d : DB) : DB :=
  mkDB (<[t := Feedback.mk (Feedback.email row) true]> (feedback d))
       (<[t := UserFeedback.mk (Feedback.email row) text]> (user_feedback d)).

(** The answer to a request that carries both keys, with text under
    [uuid]. *)
Definition submit_feedback_on (env : Env) (t : string) (text : pyval) (w : World)
  : World * result response :=
  if negb (valid_uuid_text t)
  then (w, Ok (Msg "Invalid UUID format.", BAD_REQUEST))
  else
    match feedback (db w) !! t with
    | None => (w, Ok (Msg ("UUID '" +:+ t +:+ "' not found."), NOT_FOUND))
    | Some row =>
        if Feedback.submitted row
        then (w, Ok (Msg "Feedback already submitted for this UUID.", BAD_REQUEST))
        else if negb (validate_email env (Feedback.email row))
        then (w, Ok (Msg "Invalid email address.", BAD_REQUEST))
        else
          match user_feedback (db w) !! t with
          | Some _ => (w, Raise IntegrityError)
          | None =>
              match bind_text text with
              | Raise e => (w, Raise e)
              | Ok stored =>
                  (mkWorld (redeemed t row stored (db w)) (uuid_calls w)
                     (mail_calls w),
                   Ok (Msg "Feedback submitted successfully!", OK))
              end
          end
    end.

(** ** Requests and reachable worlds *)

Inductive request : Type :=
  | Send_invite (data : pyval)
  | Submit_feedback (data : pyval).

Definition handle (env : Env) (r : request) : M response :=
  match r with
  | Send_invite data => send_invite env data
  | Submit_feedback data => submit_feedback env data
  end.

(** The worlds the service can be in: it starts on empty tables and serves
    one request after the other. *)
Inductive reachable (env : Env) : World → Prop :=
  | reachable_init : reachable env init
  | reachable_step w r : reachable env w → reachable env (handle env r w).1.

(** ** Predicates on the tables *)

(** Some token was issued to [email]. *)
Definition invited (email : string) (tbl : gmap string Feedback.t) : Prop :=
  ∃ id row, tbl !! id = Some row ∧ Feedback.email row = email.

(** No two tokens carry the same email. *)
Definition email_unique (tbl : gmap string Feedback.t) : Prop :=
  ∀ i j r1 r2,
    tbl !! i = Some r1 → tbl !! j = Some r2 →
    Feedback.email r1 = Feedback.email r2 → i = j.

(** A feedback record exists exactly for the redeemed tokens. *)
Definition consistent (d : DB) : Prop :=
  ∀ t, is_Some (user_feedback d !! t) ↔
       ∃ row, feedback d !! t = Some row ∧ Feedback.submitted row = true.

Definition db_invariant (d : DB) : Prop :=
  consistent d ∧ email_unique (feedback d).

(** The two request bodies the handlers expect. *)
Definition invite_request (emails : list pyval) : pyval :=
  PDict [("emails", PList emails)].

Definition feedback_request (t : string) (text : pyval) : pyval :=
  PDict [("uuid", PStr t); ("feedback", text)].

(** ** Sample data *)

Module Sample.

Definition token1 : string := "16fd2706-8baf-433b-82eb-8c7fada847da".
Definition token2 : string := "7c9e6679-7425-40de-944b-e07fc1f90ae7".
Definition token3 : string := "0b1e4c5a-8d2f-4a3b-9c6d-1e2f3a4b5c6d".

(** A version 1 identifier. *)
Definition time_based : string := "c232ab00-9414-11ec-b3c8-9f6bdeced846".

(** Not an identifier: a hexadecimal literal of 30 digits. *)
Definition hex_literal : string := "0x16fd27068baf433b82eb8c7fada847".

Definition uuids (n : nat) : string :=
  match n with
  | 0 => token1
  | 1 => token2
  | _ => token3
  end.

Definition has_at (s : string) : bool := Str.contains "@" s.

Definition env : Env :=
  mkEnv uuids (λ _ _, None) has_at (Some "http://localhost:5000").


(** A generator that draws the same identifier again and again. *)
Definition env_repeating : Env :=
  mkEnv (λ _, token1) (λ _ _, None) has_at (Some "http://localhost:5000").

(** The world after inviting one address. *)
Definition alice_invited : World :=
  (send_invite env (invite_request [PStr "alice@example.com"]) init).1.

Definition alice : Feedback.t := Feedback.mk "alice@example.com" false.

(** ... and after her feedback came in. *)
Definition alice_redeemed : World :=
  (submit_feedback env (feedback_request token1 (PStr "great")) alice_invited).1.

End Sample.

(** ** The remaining handlers *)

(** One entry of the list [get_all_feedbacks] returns. *)
Record feedback_item : Type := mkItem {
  item_id : string;
  item_email : string;
  item_feedback : pyval
}.

(** [get_all_feedbacks] (lines 123 to 148): the rows of [UserFeedback], in
    the order the table enumerates them, each turned into an entry. *)
Definition get_all_feedbacks : M (list feedback_item * Z) :=
  λ w, (w,
        Ok ((λ kv, mkItem kv.1 (UserFeedback.email kv.2) (UserFeedback.feedback kv.2))
              <$> map_to_list (user_feedback (db w)),
            OK)).

(** What [feedback_form] answers with: a rendered template or a JSON
    message. *)
Inductive page : Type :=
  | Rendered (template : string)
  | Json (message : string).

(** [feedback_form] (lines 273 to 286); [uuid_value] is
    [request.args.get('uuid')]. *)
Definition feedback_form (uuid_value : option string) : page * Z :=
  if negb (match uuid_value with
           | Some s => negb (String.eqb s "")
           | None => false
           end)
  then (Json "UUID not found in the query parameters.", BAD_REQUEST)
  else (Rendered "feedback_form.html", OK).

(** Serving a sequence of requests, one after the other. *)
Fixpoint serve (env : Env) (rs : list request) (w : World) : World :=
  match rs with
  | [] => w
  | r :: rs' => serve env rs' (handle env r w).1
  end.

(** ** Further predicates *)

(** Every token of [d] is in [d'], unchanged, and the records are the
    same. *)
Definition tokens_kept (d d' : DB) : Prop :=
  (∀ id row, feedback d !! id = Some row → feedback d' !! id = Some row)
  ∧ user_feedback d' = user_feedback d.

(** Every token of [d] is in [d'] under the same id with the same email, and
    redeemed if it was; every record of [d] is in [d'], unchanged. *)
Definition history_kept (d d' : DB) : Prop :=
  (∀ id row, feedback d !! id = Some row →
     ∃ row', feedback d' !! id = Some row' ∧
             Feedback.email row' = Feedback.email row ∧
             (Feedback.submitted row = true → Feedback.submitted row' = true))
  ∧ (∀ id u, user_feedback d !! id = Some u → user_feedback d' !! id = Some u).

(** Every record belongs to a redeemed token and carries its email. *)
Definition records_match (d : DB) : Prop :=
  ∀ t u, user_feedback d !! t = Some u →
    ∃ row, feedback d !! t = Some row ∧
           Feedback.email row = UserFeedback.email u ∧
           Feedback.submitted row = true.

(** The redeemed tokens. *)
Definition redeemed_tokens (tbl : gmap string Feedback.t) : gmap string Feedback.t :=
  filter (λ kv, Feedback.submitted kv.2 = true) tbl.

(** Texts made of hexadecimal digits, in either case, and hyphens, with 32
    digits in all: among them the 8-4-4-4-12 form [str(uuid.uuid4())]
    produces. *)
Definition is_hex (c : ascii) : bool :=
  match PyInt.hex_digit c with
  | Some _ => true
  | None => false
  end.

Fixpoint all_hex (s : string) : bool :=
  match s with
  | EmptyString => true
  | String c s' => is_hex c && all_hex s'
  end.

Fixpoint drop_hyphens (s : string) : string :=
  match s with
  | EmptyString => EmptyString
  | String c s' =>
      if Ascii.eqb c "-"%char then drop_hyphens s' else String c (drop_hyphens s')
  end.

Definition canonical (s : string) : bool :=
  all_hex (drop_hyphens s) && (String.length (drop_hyphens s) =? 32)%nat.

(** ** Queries *)

Lemma first_None {A : Type} (m : gmap string A) : first m = None ↔ m = ∅.
Proof.
  unfold first. rewrite <- map_to_list_empty_iff.
  destruct (map_to_list m); simpl; split; congruence.
Qed.

Lemma first_Some {A : Type} (m : gmap string A) (x : A) :
  first m = Some x → ∃ k, m !! k = Some x.
Proof.
  unfold first. destruct (map_to_list m) as [|[k y] l] eqn:E; simpl; [congruence|].
  intros [= <-]. exists k. apply elem_of_map_to_list. rewrite E. left.
Qed.

Lemma filter_by_email_lookup email tbl id row :
  filter_by_email email tbl !! id = Some row ↔
  tbl !! id = Some row ∧ Feedback.email row = email.
Proof. unfold filter_by_email. by rewrite map_lookup_filter_Some. Qed.

Lemma first_filter_by_email_None email tbl :
  first (filter_by_email email tbl) = None ↔ ¬ invited email tbl.
Proof.
  rewrite first_None. unfold invited. split.
  - intros E (id & row & H1 & H2).
    assert (filter_by_email email tbl !! id = Some row) as H
      by (by apply filter_by_email_lookup).
    rewrite E in H. by rewrite lookup_empty in H.
  - intros N. apply map_empty. intros id.
    destruct (filter_by_email email tbl !! id) as [row|] eqn:E; [|done].
    apply filter_by_email_lookup in E as [? ?]. exfalso. apply N. eauto.
Qed.

Lemma first_filter_by_email_Some email tbl row :
  first (filter_by_email email tbl) = Some row → invited email tbl.
Proof.
  intros H. apply first_Some in H as [k H].
  apply filter_by_email_lookup in H as [? ?]. unfold invited. eauto.
Qed.

(** The rows of one email, when it is unique: a single one. *)
Lemma filter_by_email_singleton email tbl id row :
  email_unique tbl → tbl !! id = Some row → Feedback.email row = email →
  filter_by_email email tbl = {[ id := row ]}.
Proof.
  intros U H E. apply map_eq. intros k.
  destruct (decide (k = id)) as [->|N].
  - rewrite lookup_singleton_eq. by apply filter_by_email_lookup.
  - rewrite lookup_singleton_ne by done.
    destruct (filter_by_email email tbl !! k) as [r|] eqn:F; [|done].
    apply filter_by_email_lookup in F as [F1 F2]. exfalso. apply N.
    apply (U k id r row); congruence.
Qed.

Lemma email_unique_insert tbl id row :
  email_unique tbl → tbl !! id = None → ¬ invited (Feedback.email row) tbl →
  email_unique (<[id := row]> tbl).
Proof.
  intros U F N i j r1 r2 H1 H2 E.
  destruct (decide (i = id)) as [->|Ni], (decide (j = id)) as [->|Nj]; [done|..].
  - rewrite lookup_insert_eq in H1. rewrite lookup_insert_ne in H2 by done.
    injection H1 as <-. exfalso. apply N. exists j, r2. split; congruence.
  - rewrite lookup_insert_eq in H2. rewrite lookup_insert_ne in H1 by done.
    injection H2 as <-. exfalso. apply N. exists i, r1. split; congruence.
  - rewrite lookup_insert_ne in H1, H2 by done. eauto.
Qed.

Lemma email_unique_submitted tbl id row :
  email_unique tbl → tbl !! id = Some row →
  email_unique (<[id := Feedback.mk (Feedback.email row) true]> tbl).
Proof.
  intros U F i j r1 r2 H1 H2 E.
  assert (∀ k r, <[id := Feedback.mk (Feedback.email row) true]> tbl !! k = Some r →
                 ∃ r', tbl !! k = Some r' ∧ Feedback.email r' = Feedback.email r) as K.
  { intros k r. destruct (decide (k = id)) as [->|Nk].
    - rewrite lookup_insert_eq. intros [= <-]. eauto.
    - rewrite lookup_insert_ne by done. eauto. }
  apply K in H1 as (r1' & H1 & E1). apply K in H2 as (r2' & H2 & E2).
  apply (U i j r1' r2'); congruence.
Qed.

(** ** One turn of the invitation loop *)

Section Body.

Context (env : Env).

Lemma send_invite_body_duplicate email succ err w :
  invited email (feedback (db w)) →
  send_invite_body env email succ err w =
    (w, Ok (succ, (err ++ ["Email '" +:+ email +:+ "' already invited!"])%list)).
Proof.
  intros I. unfold send_invite_body, bind, query_feedback_by_email, ret.
  destruct (first (filter_by_email email (feedback (db w)))) eqn:E; [done|].
  apply first_filter_by_email_None in E. contradiction.
Qed.

Lemma send_invite_body_collision email succ err w :
  ¬ invited email (feedback (db w)) →
  is_Some (feedback (db w) !! uuid4 env (uuid_calls w)) →
  send_invite_body env email succ err w =
    (mkWorld (db w) (S (uuid_calls w)) (mail_calls w), Raise IntegrityError).
Proof.
  intros N [row F]. apply first_filter_by_email_None in N.
  unfold send_invite_body, bind, query_feedback_by_email, ret, new_uuid, commit.
  rewrite N. simpl. by rewrite F.
Qed.

Lemma send_invite_body_fresh email succ err w :
  ¬ invited email (feedback (db w)) →
  feedback (db w) !! uuid4 env (uuid_calls w) = None →
  send_invite_body env email succ err w =
    (mkWorld (mkDB (<[uuid4 env (uuid_calls w) := Feedback.mk email false]>
                      (feedback (db w)))
                   (user_feedback (db w)))
             (S (uuid_calls w)) (S (mail_calls w)),
     Ok match mail_send env (mail_calls w)
                (invitation env email (uuid4 env (uuid_calls w))) with
        | None =>
            ((succ ++ ["Invite sent successfully to " +:+ email])%list, err)
        | Some e =>
            (succ,
             (err ++ ["Error sending invite to " +:+ email +:+ ": " +:+ e])%list)
        end).
Proof.
  intros N F. apply first_filter_by_email_None in N.
  unfold send_invite_body, bind, query_feedback_by_email, ret, new_uuid, commit,
    try_mail_send.
  rewrite N. simpl. rewrite F. simpl.
  by destruct (mail_send env (mail_calls w) _).
Qed.

End Body.

(** ** The shape of [submit_feedback] on a well-shaped request *)


Lemma UUID_str_raises s version e :
  uuid.UUID (PStr s) version = Raise e → e = ValueError.
Proof.
  unfold uuid.UUID.
  repeat match goal with
         | |- context [if ?b then _ else _] => destruct b
         | |- context [match ?x with _ => _ end] => destruct x
         end; congruence.
Qed.

Lemma is_valid_uuid_str s : is_valid_uuid (PStr s) = Ok (valid_uuid_text s).
Proof.
  unfold valid_uuid_text, is_valid_uuid.
  destruct (uuid.UUID (PStr s) (Some 4%Z)) as [i|e] eqn:E; [done|].
  apply UUID_str_raises in E. by subst e.
Qed.

Section Submit.

Context (env : Env).


Lemma flush_redeem t row text d :
  feedback d !! t = Some row →
  flush [Add_UserFeedback t (UserFeedback.mk (Feedback.email row) text);
         Set_submitted t] d =
    match user_feedback d !! t with
    | Some _ => Raise IntegrityError
    | None =>
        match bind_text text with
        | Raise e => Raise e
        | Ok stored => Ok (redeemed t row stored d)
        end
    end.
Proof.
  intros F. simpl. destruct (user_feedback d !! t); [done|].
  simpl. destruct (bind_text text); simpl; [|done]. by rewrite F.
Qed.


Lemma submit_feedback_dict d t text w :
  dict_get d "uuid" = Some (PStr t) →
  dict_get d "feedback" = Some text →
  submit_feedback env (PDict d) w = submit_feedback_on env t text w.
Proof.
  intros Hu Hf. unfold submit_feedback, submit_feedback_on, bind, lift, ret, py_contains,
    py_getitem, query_feedback_by_id, filter_by_id_first, commit.
  rewrite Hu, Hf. rewrite !bool_decide_eq_true_2 by eauto. simpl.
  rewrite is_valid_uuid_str.
  destruct (valid_uuid_text t); simpl; [|done].
  destruct (feedback (db w) !! t) as [row|] eqn:F; [|done].
  destruct (Feedback.submitted row); [done|].
  destruct (validate_email env (Feedback.email row)); simpl; [|done].
  pose proof (flush_redeem t row text (db w) F) as FR. simpl in FR. rewrite FR.
  destruct (user_feedback (db w) !! t); [done|].
  by destruct (bind_text text).
Qed.

End Submit.

(** ** Invariants of the tables *)


Lemma db_invariant_init : db_invariant (db init).
Proof.
  split.
  - intros t. simpl. rewrite !lookup_empty. split.
    + by intros [? ?].
    + by intros (? & ? & ?).
  - intros i j r1 r2. simpl. by rewrite lookup_empty.
Qed.

Lemma db_invariant_issue d id email :
  db_invariant d → feedback d !! id = None → ¬ invited email (feedback d) →
  db_invariant (mkDB (<[id := Feedback.mk email false]> (feedback d)) (user_feedback d)).
Proof.
  intros [C U] F N. split.
  - intros t. simpl. destruct (decide (t = id)) as [->|Nt].
    + rewrite lookup_insert_eq. split.
      * intros H. apply C in H as (row & H & _). congruence.
      * by intros (row & [= <-] & ?).
    + rewrite lookup_insert_ne by done. apply C.
  - simpl. by apply email_unique_insert.
Qed.

Lemma db_invariant_redeemed d t row text :
  db_invariant d → feedback d !! t = Some row →
  db_invariant (redeemed t row text d).
Proof.
  intros [C U] F. split.
  - intros k. unfold redeemed. simpl. destruct (decide (k = t)) as [->|Nk].
    + rewrite !lookup_insert_eq. split; eauto.
    + rewrite !lookup_insert_ne by done. apply C.
  - unfold redeemed. simpl. by apply email_unique_submitted.
Qed.

Section Preservation.

Context (env : Env).

(** The three ways a turn of the loop can go. *)
Lemma send_invite_body_cases email succ err w :
  (invited email (feedback (db w)) ∧
   send_invite_body env email succ err w =
     (w, Ok (succ, (err ++ ["Email '" +:+ email +:+ "' already invited!"])%list)))
  ∨ (¬ invited email (feedback (db w)) ∧
     is_Some (feedback (db w) !! uuid4 env (uuid_calls w)) ∧
     send_invite_body env email succ err w =
       (mkWorld (db w) (S (uuid_calls w)) (mail_calls w), Raise IntegrityError))
  ∨ (¬ invited email (feedback (db w)) ∧
     feedback (db w) !! uuid4 env (uuid_calls w) = None ∧
     ∃ msgs,
       send_invite_body env email succ err w =
         (mkWorld (mkDB (<[uuid4 env (uuid_calls w) := Feedback.mk email false]>
                           (feedback (db w)))
                        (user_feedback (db w)))
                  (S (uuid_calls w)) (S (mail_calls w)),
          Ok msgs)).
Proof.
  destruct (first (filter_by_email email (feedback (db w)))) as [row|] eqn:E.
  - left. apply first_filter_by_email_Some in E. split; [done|].
    by apply send_invite_body_duplicate.
  - right. apply first_filter_by_email_None in E.
    destruct (feedback (db w) !! uuid4 env (uuid_calls w)) as [row|] eqn:F.
    + left. split; [done|]. split; [eauto|].
      apply send_invite_body_collision; eauto.
    + right. split; [done|]. split; [done|].
      eexists. by apply send_invite_body_fresh.
Qed.

Lemma send_invite_body_invariant email succ err w :
  db_invariant (db w) →
  db_invariant (db (send_invite_body env email succ err w).1).
Proof.
  intros I.
  destruct (send_invite_body_cases email succ err w)
    as [[_ ->]|[(_ & _ & ->)|(N & F & msgs & ->)]]; simpl; [done|done|].
  by apply db_invariant_issue.
Qed.

Lemma send_invite_loop_invariant emails succ err w :
  db_invariant (db w) →
  db_invariant (db (send_invite_loop env emails succ err w).1).
Proof.
  revert succ err w. induction emails as [|email emails IH]; intros succ err w I.
  - done.
  - simpl. unfold bind.
    pose proof (send_invite_body_invariant email succ err w I) as I1.
    destruct (send_invite_body env email succ err w) as [w1 [[s1 e1]|e]];
      simpl in *; [|done].
    by apply IH.
Qed.

(** Outside the loop [send_invite] does not touch the world. *)
Lemma send_invite_cases data w :
  (send_invite env data w).1 = w
  ∨ ∃ emails, (send_invite env data w).1 = (send_invite_loop env emails [] [] w).1.
Proof.
  unfold send_invite, bind, lift, ret.
  destruct (py_contains "emails" data) as [[|]|]; simpl; auto.
  destruct (py_getitem data "emails") as [emails|]; simpl; auto.
  destruct (py_truthy emails); simpl; auto.
  destruct (py_iter emails) as [items|]; simpl; auto.
  destruct (forallb is_str items); simpl; auto.
  right. exists (omap as_str items).
  by destruct (send_invite_loop env (omap as_str items) [] [] w) as [w1 [[s1 e1]|e]].
Qed.

Lemma send_invite_invariant data w :
  db_invariant (db w) → db_invariant (db (send_invite env data w).1).
Proof.
  intros I. destruct (send_invite_cases data w) as [->|[emails ->]]; [done|].
  by apply send_invite_loop_invariant.
Qed.

(** [submit_feedback] either leaves the world as it found it, or redeems
    an existing, unredeemed token that has no record yet. *)
Lemma submit_feedback_cases data w :
  (submit_feedback env data w).1 = w ∧
    (submit_feedback env data w).2 ≠ Ok (Msg "Feedback submitted successfully!", OK)
  ∨ ∃ d t text row,
      data = PDict d ∧ dict_get d "uuid" = Some (PStr t) ∧
      (∃ sent, dict_get d "feedback" = Some sent ∧ bind_text sent = Ok text) ∧
      feedback (db w) !! t = Some row ∧ Feedback.submitted row = false ∧
      user_feedback (db w) !! t = None ∧
      submit_feedback env data w =
        (mkWorld (redeemed t row text (db w)) (uuid_calls w) (mail_calls w),
         Ok (Msg "Feedback submitted successfully!", OK)).
Proof.
  destruct data as [| | | |l|d];
    try (left; split; [reflexivity|discriminate]).
  - left. unfold submit_feedback, bind, lift, ret. simpl.
    destruct (Str.contains "uuid" s); simpl; [|by split].
    destruct (Str.contains "feedback" s); simpl; by split.
  - left. unfold submit_feedback, bind, lift, ret. simpl.
    destruct (existsb (str_eq "uuid") l); simpl; [|by split].
    destruct (existsb (str_eq "feedback") l); simpl; by split.
  - destruct (dict_get d "uuid") as [v|] eqn:Hu.
    2:{ left. unfold submit_feedback, bind, lift, ret. simpl. rewrite Hu.
        rewrite bool_decide_eq_false_2 by (by intros [? ?]). by split. }
    destruct (dict_get d "feedback") as [text|] eqn:Hf.
    2:{ left. unfold submit_feedback, bind, lift, ret. simpl. rewrite Hu, Hf.
        rewrite bool_decide_eq_true_2 by eauto.
        rewrite bool_decide_eq_false_2 by (by intros [? ?]). by split. }
    destruct v as [| | |t| |];
      try (left; unfold submit_feedback, bind, lift, ret; simpl; rewrite Hu, Hf;
           rewrite !bool_decide_eq_true_2 by eauto; by split).
    rewrite (submit_feedback_dict env d t text w Hu Hf). unfold submit_feedback_on.
    destruct (valid_uuid_text t); simpl; [|by left].
    destruct (feedback (db w) !! t) as [row|] eqn:F; [|by left].
    destruct (Feedback.submitted row) eqn:S; [by left|].
    destruct (validate_email env (Feedback.email row)); simpl; [|by left].
    destruct (user_feedback (db w) !! t) eqn:U; [by left|].
    destruct (bind_text text) as [stored|] eqn:B; [|by left].
    right. exists d, t, stored, row. rewrite Hu, F. repeat split; eauto.
Qed.

Lemma submit_feedback_invariant data w :
  db_invariant (db w) → db_invariant (db (submit_feedback env data w).1).
Proof.
  intros I. destruct (submit_feedback_cases data w)
    as [[-> _]|(d & t & text & row & _ & _ & _ & F & _ & _ & ->)]; [done|].
  simpl. by apply db_invariant_redeemed.
Qed.

Lemma reachable_invariant w : reachable env w → db_invariant (db w).
Proof.
  induction 1 as [|w r _ IH].
  - apply db_invariant_init.
  - destruct r; simpl.
    + by apply send_invite_invariant.
    + by apply submit_feedback_invariant.
Qed.

End Preservation.


Section Shapes.

Context (env : Env).

Lemma forallb_is_str_fmap (l : list string) : forallb is_str (PStr <$> l) = true.
Proof. induction l; simpl; auto. Qed.

Lemma omap_as_str_fmap (l : list string) : omap as_str (PStr <$> l) = l.
Proof. induction l as [|x l IH]; [done|]. cbn. by f_equal. Qed.

(** On a non-empty list of strings [send_invite] runs the loop over every
    entry, in order. *)
Lemma send_invite_list d (l : list string) w :
  dict_get d "emails" = Some (PList (PStr <$> l)) → l ≠ [] →
  send_invite env (PDict d) w =
    match send_invite_loop env l [] [] w with
    | (w', Ok (succ, err)) => (w', Ok (Batch succ err, OK))
    | (w', Raise e) => (w', Raise e)
    end.
Proof.
  intros H N. unfold send_invite, bind, lift, ret. simpl. rewrite H.
  rewrite bool_decide_eq_true_2 by eauto. simpl.
  assert (Nat.eqb (length l) 0 = false) as L by (by destruct l).
  rewrite length_fmap, L. cbn [negb].
  rewrite forallb_is_str_fmap. cbn [negb]. rewrite omap_as_str_fmap.
  by destruct (send_invite_loop env l [] [] w) as [w1 [[s1 e1]|e]].
Qed.

(** A request that is not an object carrying text under [uuid] and
    something under [feedback] never reaches the tables. *)
Lemma submit_feedback_shape data w :
  (∃ d t text, data = PDict d ∧ dict_get d "uuid" = Some (PStr t) ∧
               dict_get d "feedback" = Some text)
  ∨ (∃ e, submit_feedback env data w = (w, Raise e))
  ∨ submit_feedback env data w =
      (w, Ok (Msg "Invalid or missing 'uuid' or 'feedback' in the JSON payload.",
              BAD_REQUEST)).
Proof.
  destruct data as [| | | |l|d]; try (right; left; by eexists).
  - unfold submit_feedback, bind, lift, ret. simpl.
    destruct (Str.contains "uuid" s); simpl; [|by right; right].
    destruct (Str.contains "feedback" s); simpl; [|by right; right].
    right; left; by eexists.
  - unfold submit_feedback, bind, lift, ret. simpl.
    destruct (existsb (str_eq "uuid") l); simpl; [|by right; right].
    destruct (existsb (str_eq "feedback") l); simpl; [|by right; right].
    right; left; by eexists.
  - destruct (dict_get d "uuid") as [v|] eqn:Hu.
    2:{ right; right. unfold submit_feedback, bind, lift, ret. simpl. rewrite Hu.
        by rewrite bool_decide_eq_false_2 by (by intros [? ?]). }
    destruct (dict_get d "feedback") as [text|] eqn:Hf.
    2:{ right; right. unfold submit_feedback, bind, lift, ret. simpl.
        rewrite Hu, Hf. rewrite bool_decide_eq_true_2 by eauto.
        by rewrite bool_decide_eq_false_2 by (by intros [? ?]). }
    destruct v as [| | |t| |];
      try (right; left; unfold submit_feedback, bind, lift, ret; simpl;
           rewrite Hu, Hf; rewrite !bool_decide_eq_true_2 by eauto; by eexists).
    left. by exists d, t, text.
Qed.

End Shapes.

(** ** Issuing *)

Section Issue.

Context (env : Env).

Lemma send_invite_single e w :
  send_invite env (invite_request [PStr e]) w =
    match send_invite_body env e [] [] w with
    | (w', Ok (succ, err)) => (w', Ok (Batch succ err, OK))
    | (w', Raise x) => (w', Raise x)
    end.
Proof.
  unfold invite_request.
  rewrite (send_invite_list env _ [e] w) by done.
  simpl. unfold bind, ret.
  by destruct (send_invite_body env e [] [] w) as [w1 [[s1 e1]|x]].
Qed.

Lemma send_invite_single_duplicate e w :
  invited e (feedback (db w)) →
  send_invite env (invite_request [PStr e]) w =
    (w, Ok (Batch [] ["Email '" +:+ e +:+ "' already invited!"], OK)).
Proof.
  intros I. rewrite send_invite_single.
  by rewrite (send_invite_body_duplicate env e [] [] w I).
Qed.

(** C1. For every email [e], in any world the service can reach: two
    consecutive invitations of [e] leave exactly one token stored for [e];
    the second call answers with the already-invited message and leaves
    the whole world, hence the first token's id, email and flag, as the
    first call left it.  The identifier drawn by the first call is taken
    to be new to the table, as the generator promises. *)
Theorem send_invite_twice_one_token e w :
  reachable env w →
  feedback (db w) !! uuid4 env (uuid_calls w) = None →
  let data := invite_request [PStr e] in
  let w1 := (send_invite env data w).1 in
  let w2 := (send_invite env data w1).1 in
  (∃ id row, filter_by_email e (feedback (db w2)) = {[ id := row ]}
             ∧ feedback (db w1) !! id = Some row)
  ∧ size (filter_by_email e (feedback (db w2))) = 1
  ∧ (send_invite env data w1).2 =
      Ok (Batch [] ["Email '" +:+ e +:+ "' already invited!"], OK)
  ∧ w2 = w1.
Proof.
  intros R F data w1 w2.
  pose proof (reachable_invariant env w R) as I.
  assert (db_invariant (db w1)) as [C1 U1] by (by apply send_invite_invariant).
  assert (invited e (feedback (db w1))) as I1.
  { subst w1 data. rewrite send_invite_single.
    destruct (first (filter_by_email e (feedback (db w)))) as [row|] eqn:E.
    - apply first_filter_by_email_Some in E.
      by rewrite (send_invite_body_duplicate env e [] [] w E).
    - apply first_filter_by_email_None in E.
      rewrite (send_invite_body_fresh env e [] [] w E F).
      destruct (mail_send env _ _); cbn [fst db feedback];
        exists (uuid4 env (uuid_calls w)), (Feedback.mk e false);
        by rewrite lookup_insert_eq. }
  assert (send_invite env data w1 =
            (w1, Ok (Batch [] ["Email '" +:+ e +:+ "' already invited!"], OK))) as E2
    by (by apply send_invite_single_duplicate).
  assert (w2 = w1) as W by (subst w2; by rewrite E2).
  destruct I1 as (id & row & L & Em).
  assert (filter_by_email e (feedback (db w2)) = {[ id := row ]}) as S.
  { rewrite W. by apply filter_by_email_singleton. }
  split; [by exists id, row|]. split; [by rewrite S, map_size_singleton|].
  split; [by rewrite E2|done].
Qed.

(** C9. For an email [e] not yet invited, when the identifier drawn is new:
    the turn of the loop succeeds, and looking the drawn identifier up, the
    way [submit_feedback] does, finds a token with email [e] that is not
    redeemed. *)
Theorem lookup_issued_token e succ err w id :
  ¬ invited e (feedback (db w)) →
  (new_uuid env w).2 = Ok id →
  feedback (db w) !! id = None →
  let w' := (send_invite_body env e succ err w).1 in
  (∃ msgs, (send_invite_body env e succ err w).2 = Ok msgs)
  ∧ (query_feedback_by_id id w').2 = Ok (Some (Feedback.mk e false)).
Proof.
  intros N [= <-] F w'. subst w'.
  rewrite (send_invite_body_fresh env e succ err w N F).
  cbn [fst snd]. split; [eauto|].
  unfold query_feedback_by_id, filter_by_id_first. cbn [fst snd db feedback].
  by rewrite lookup_insert_eq.
Qed.

End Issue.

(** ** Redeeming *)

Section Redeem.

Context (env : Env).

Lemma submit_feedback_request t text w :
  submit_feedback env (feedback_request t text) w = submit_feedback_on env t text w.
Proof. by apply submit_feedback_dict. Qed.

(** A redeemed token answers every later submission the same way. *)
Lemma submit_feedback_on_redeemed t text w row :
  valid_uuid_text t = true →
  feedback (db w) !! t = Some row → Feedback.submitted row = true →
  submit_feedback_on env t text w =
    (w, Ok (Msg "Feedback already submitted for this UUID.", BAD_REQUEST)).
Proof.
  intros V F S. unfold submit_feedback_on. rewrite V, F, S. done.
Qed.

(** When [submit_feedback_on] acknowledges, it has run the transaction. *)
Lemma submit_feedback_on_success t text w w1 :
  submit_feedback_on env t text w =
    (w1, Ok (Msg "Feedback submitted successfully!", OK)) →
  valid_uuid_text t = true ∧
  ∃ row stored,
    feedback (db w) !! t = Some row ∧ Feedback.submitted row = false ∧
    user_feedback (db w) !! t = None ∧ bind_text text = Ok stored ∧
    w1 = mkWorld (redeemed t row stored (db w)) (uuid_calls w) (mail_calls w).
Proof.
  unfold submit_feedback_on.
  destruct (valid_uuid_text t); cbn [negb]; [|by intros [=]].
  destruct (feedback (db w) !! t) as [row|]; [|by intros [=]].
  destruct (Feedback.submitted row) eqn:S; [by intros [=]|].
  destruct (validate_email env (Feedback.email row)); cbn [negb]; [|by intros [=]].
  destruct (user_feedback (db w) !! t) eqn:U; [by intros [=]|].
  destruct (bind_text text) as [stored|]; [|by intros [=]].
  intros [= <-]. split; [done|]. by exists row, stored.
Qed.

(** C5. After a submission of the text [body] for token [t] was
    acknowledged, a second submission for [t], whatever it carries under
    [feedback], is answered with the already-submitted message, changes
    nothing, and the stored feedback is still the text of the first call. *)
Theorem second_submission_rejected d d2 t (body : string) (body2 : pyval) w w1 :
  dict_get d "uuid" = Some (PStr t) → dict_get d "feedback" = Some (PStr body) →
  dict_get d2 "uuid" = Some (PStr t) → dict_get d2 "feedback" = Some body2 →
  submit_feedback env (PDict d) w =
    (w1, Ok (Msg "Feedback submitted successfully!", OK)) →
  submit_feedback env (PDict d2) w1 =
    (w1, Ok (Msg "Feedback already submitted for this UUID.", BAD_REQUEST))
  ∧ UserFeedback.feedback <$> user_feedback (db w1) !! t = Some (PStr body)
  ∧ UserFeedback.feedback <$>
      user_feedback (db (submit_feedback env (PDict d2) w1).1) !! t
    = Some (PStr body).
Proof.
  intros Hu Hf Hu2 Hf2 H.
  rewrite (submit_feedback_dict env d t (PStr body) w Hu Hf) in H.
  apply submit_feedback_on_success in H as (V & row & stored & F & S & U & B & ->).
  injection B as <-.
  assert (submit_feedback env (PDict d2)
            (mkWorld (redeemed t row (PStr body) (db w)) (uuid_calls w) (mail_calls w)) =
          (mkWorld (redeemed t row (PStr body) (db w)) (uuid_calls w) (mail_calls w),
           Ok (Msg "Feedback already submitted for this UUID.", BAD_REQUEST))) as E.
  { rewrite (submit_feedback_dict env d2 t body2 _ Hu2 Hf2).
    apply (submit_feedback_on_redeemed t body2 _ (Feedback.mk (Feedback.email row) true));
      [done| |done].
    unfold redeemed. cbn [db feedback]. by rewrite lookup_insert_eq. }
  rewrite E. split; [done|]. cbn [fst db].
  unfold redeemed. cbn [user_feedback]. by rewrite lookup_insert_eq.
Qed.

(** C3, as the code has it.  For an existing, unredeemed token with a
    well-formed id and a valid stored email, a submission with the empty
    text is accepted like any other: it is acknowledged, the flag is set and
    a record with the empty body is stored; every later submission for the
    token, whatever its body, is answered with the already-submitted
    message. *)
Theorem empty_feedback_accepted t row w :
  consistent (db w) →
  feedback (db w) !! t = Some row → Feedback.submitted row = false →
  is_valid_uuid (PStr t) = Ok true →
  validate_email env (Feedback.email row) = true →
  let w1 := (submit_feedback env (feedback_request t (PStr "")) w).1 in
  (submit_feedback env (feedback_request t (PStr "")) w).2 =
    Ok (Msg "Feedback submitted successfully!", OK)
  ∧ feedback (db w1) !! t = Some (Feedback.mk (Feedback.email row) true)
  ∧ user_feedback (db w1) !! t =
      Some (UserFeedback.mk (Feedback.email row) (PStr ""))
  ∧ ∀ body, submit_feedback env (feedback_request t body) w1 =
      (w1, Ok (Msg "Feedback already submitted for this UUID.", BAD_REQUEST)).
Proof.
  intros C F S V E w1.
  assert (valid_uuid_text t = true) as V'.
  { rewrite is_valid_uuid_str in V. by injection V. }
  assert (user_feedback (db w) !! t = None) as U.
  { destruct (user_feedback (db w) !! t) eqn:U; [|done].
    assert (is_Some (user_feedback (db w) !! t)) as I by eauto.
    apply C in I as (row' & F' & S'). congruence. }
  assert (submit_feedback env (feedback_request t (PStr "")) w =
            (mkWorld (redeemed t row (PStr "") (db w)) (uuid_calls w) (mail_calls w),
             Ok (Msg "Feedback submitted successfully!", OK))) as R.
  { rewrite submit_feedback_request. unfold submit_feedback_on.
    rewrite V', F, S, E, U. done. }
  subst w1. rewrite R. cbn [fst snd db]. unfold redeemed. cbn [feedback user_feedback].
  rewrite !lookup_insert_eq. repeat split.
  intros body. rewrite submit_feedback_request.
  apply (submit_feedback_on_redeemed t body _ (Feedback.mk (Feedback.email row) true));
    [done| |done].
  cbn [db feedback]. by rewrite lookup_insert_eq.
Qed.

(** The order of the format check and the lookup.  [is_valid_uuid] is
    applied before the table is consulted: a request whose [uuid] text it
    rejects gets the invalid-format answer in every world, and the not-found
    answer is only ever given to a request whose [uuid] is text it accepts
    and that is absent from the table. *)
Theorem malformed_uuid_invalid_format w :
  (∀ d s text,
     dict_get d "uuid" = Some (PStr s) → dict_get d "feedback" = Some text →
     is_valid_uuid (PStr s) = Ok false →
     submit_feedback env (PDict d) w =
       (w, Ok (Msg "Invalid UUID format.", BAD_REQUEST)))
  ∧ (∀ data msg,
       (submit_feedback env data w).2 = Ok (Msg msg, NOT_FOUND) →
       ∃ d s, data = PDict d ∧ dict_get d "uuid" = Some (PStr s) ∧
              is_valid_uuid (PStr s) = Ok true ∧ feedback (db w) !! s = None).
Proof.
  split.
  - intros d s text Hu Hf V. rewrite is_valid_uuid_str in V. injection V as V.
    rewrite (submit_feedback_dict env d s text w Hu Hf).
    unfold submit_feedback_on. by rewrite V.
  - intros data msg H.
    destruct (submit_feedback_shape env data w)
      as [(d & s & text & -> & Hu & Hf)|[[e E]|E]].
    + exists d, s. split; [done|]. split; [done|].
      rewrite (submit_feedback_dict env d s text w Hu Hf) in H.
      rewrite is_valid_uuid_str. unfold submit_feedback_on in H.
      destruct (valid_uuid_text s); cbn [negb] in H; [|by inversion H].
      split; [done|].
      destruct (feedback (db w) !! s) as [row|]; [|done].
      destruct (Feedback.submitted row); [by inversion H|].
      destruct (validate_email env (Feedback.email row)); cbn [negb] in H;
        [|by inversion H].
      destruct (user_feedback (db w) !! s); [by inversion H|].
      destruct (bind_text text); by inversion H.
    + rewrite E in H. by inversion H.
    + rewrite E in H. by inversion H.
Qed.

(** C10. A text that parses as a UUID, whatever version it carries, passes
    [is_valid_uuid]; a request carrying it is never given the
    invalid-format answer: the table decides, and an absent id gets the
    not-found answer. *)
Theorem any_version_passes_format_check d s text n w :
  uuid.UUID (PStr s) None = Ok n →
  dict_get d "uuid" = Some (PStr s) → dict_get d "feedback" = Some text →
  is_valid_uuid (PStr s) = Ok true
  ∧ (submit_feedback env (PDict d) w).2 ≠ Ok (Msg "Invalid UUID format.", BAD_REQUEST)
  ∧ (feedback (db w) !! s = None →
     submit_feedback env (PDict d) w =
       (w, Ok (Msg ("UUID '" +:+ s +:+ "' not found."), NOT_FOUND))).
Proof.
  intros P Hu Hf.
  assert (is_valid_uuid (PStr s) = Ok true) as V.
  { unfold is_valid_uuid. revert P. unfold uuid.UUID.
    destruct (negb (String.length _ =? 32)%nat); [by intros [=]|].
    destruct (PyInt.parse16 _) as [int|]; [|by intros [=]].
    by destruct (negb _). }
  split; [done|].
  rewrite is_valid_uuid_str in V. injection V as V.
  rewrite (submit_feedback_dict env d s text w Hu Hf). unfold submit_feedback_on.
  rewrite V. cbn [negb]. split.
  - destruct (feedback (db w) !! s) as [row|]; [|by intros [=]].
    destruct (Feedback.submitted row); [by intros [=]|].
    destruct (validate_email env (Feedback.email row)); cbn [negb]; [|by intros [=]].
    destruct (user_feedback (db w) !! s); [by intros [=]|].
    destruct (bind_text text); by intros [=].
  - by intros ->.
Qed.

(** C8, where the code departs from it.  A JSON [null] body makes both
    handlers raise [TypeError] at their first membership test; under [uuid],
    a number or [null] makes [is_valid_uuid] raise something its [except]
    clause does not catch; a number under [emails] cannot be iterated. *)
Theorem malformed_body_raises w :
  submit_feedback env PNone w = (w, Raise TypeError)
  ∧ send_invite env PNone w = (w, Raise TypeError)
  ∧ submit_feedback env (PDict [("uuid", PNum 5); ("feedback", PStr "x")]) w =
      (w, Raise AttributeError)
  ∧ submit_feedback env (PDict [("uuid", PNone); ("feedback", PStr "x")]) w =
      (w, Raise TypeError)
  ∧ send_invite env (PDict [("emails", PNum 5)]) w = (w, Raise TypeError).
Proof. repeat split. Qed.

End Redeem.

(** ** The batch, the notifier and the invariant *)

Section Batch.

Context (env : Env).


(** C4, as the code has it.  One entry that is not a string makes
    [send_invite] refuse the whole list with a single message and leave the
    world untouched: no entry is processed and nothing is listed under
    errors.  A list of strings is processed entry by entry, the empty
    string included: it is invited like any other address. *)
Theorem send_invite_entry_validation w :
  (∀ d l, dict_get d "emails" = Some (PList l) → forallb is_str l = false →
     send_invite env (PDict d) w =
       (w, Ok (Msg "Invalid or empty email array.", BAD_REQUEST)))
  ∧ (∀ d (l : list string),
       dict_get d "emails" = Some (PList (PStr <$> l)) → l ≠ [] →
       send_invite env (PDict d) w =
         match send_invite_loop env l [] [] w with
         | (w', Ok (succ, err)) => (w', Ok (Batch succ err, OK))
         | (w', Raise e) => (w', Raise e)
         end)
  ∧ (∀ succ err,
       ¬ invited "" (feedback (db w)) →
       feedback (db w) !! uuid4 env (uuid_calls w) = None →
       ∃ msgs,
         send_invite_body env "" succ err w =
           (mkWorld (mkDB (<[uuid4 env (uuid_calls w) := Feedback.mk "" false]>
                             (feedback (db w)))
                          (user_feedback (db w)))
                    (S (uuid_calls w)) (S (mail_calls w)),
            Ok msgs)).
Proof.
  split; [|split].
  - intros d l H A. unfold send_invite, bind, lift, ret. simpl. rewrite H.
    rewrite bool_decide_eq_true_2 by eauto. simpl.
    destruct l as [|x l]; [done|]. cbn [length Nat.eqb negb].
    by rewrite A.
  - intros d l H N. by apply send_invite_list.
  - intros succ err N F. eexists. by apply send_invite_body_fresh.
Qed.

(** C2. In every world the service can reach, a feedback record exists for
    an id exactly when the token of that id is redeemed.  And whatever the
    request, [submit_feedback] either acknowledges, having stored the
    record and set the flag in one transaction, or leaves the world as it
    was and does not acknowledge. *)
Theorem record_iff_redeemed w :
  reachable env w →
  consistent (db w)
  ∧ ∀ data,
      (∃ t row text,
         feedback (db w) !! t = Some row ∧ Feedback.submitted row = false ∧
         user_feedback (db w) !! t = None ∧
         submit_feedback env data w =
           (mkWorld (redeemed t row text (db w)) (uuid_calls w) (mail_calls w),
            Ok (Msg "Feedback submitted successfully!", OK)) ∧
         consistent (redeemed t row text (db w)))
      ∨ ((submit_feedback env data w).1 = w ∧
         (submit_feedback env data w).2 ≠
           Ok (Msg "Feedback submitted successfully!", OK)).
Proof.
  intros R. pose proof (reachable_invariant env w R) as I.
  split; [apply I|]. intros data.
  destruct (submit_feedback_cases env data w)
    as [[E1 E2]|(d & t & text & row & _ & _ & _ & F & S & U & E)].
  - by right.
  - left. exists t, row, text. repeat split; try done.
    all: by apply (db_invariant_redeemed (db w) t row text I F).
Qed.

End Batch.

(** ** The theorems at concrete inputs *)

Lemma not_invited_init email : ¬ invited email (feedback (db init)).
Proof. intros (id & row & H & _). simpl in H. by rewrite lookup_empty in H. Qed.

Lemma reachable_alice_invited : reachable Sample.env Sample.alice_invited.
Proof.
  exact (reachable_step Sample.env init
           (Send_invite (invite_request [PStr "alice@example.com"]))
           (reachable_init Sample.env)).
Qed.

Lemma send_invite_twice_one_token_witness :
  reachable Sample.env init
  ∧ feedback (db init) !! uuid4 Sample.env (uuid_calls init) = None
  ∧ let data := invite_request [PStr "alice@example.com"] in
    let w1 := (send_invite Sample.env data init).1 in
    let w2 := (send_invite Sample.env data w1).1 in
    (∃ id row, filter_by_email "alice@example.com" (feedback (db w2)) = {[ id := row ]}
               ∧ feedback (db w1) !! id = Some row)
    ∧ size (filter_by_email "alice@example.com" (feedback (db w2))) = 1
    ∧ (send_invite Sample.env data w1).2 =
        Ok (Batch [] ["Email 'alice@example.com' already invited!"], OK)
    ∧ w2 = w1.
Proof.
  split; [apply reachable_init|]. split; [reflexivity|].
  apply (send_invite_twice_one_token Sample.env "alice@example.com" init);
    [apply reachable_init | reflexivity].
Defined.

Lemma lookup_issued_token_witness :
  ¬ invited "alice@example.com" (feedback (db init))
  ∧ (new_uuid Sample.env init).2 = Ok Sample.token1
  ∧ feedback (db init) !! Sample.token1 = None
  ∧ (∃ msgs, (send_invite_body Sample.env "alice@example.com" [] [] init).2 = Ok msgs)
  ∧ (query_feedback_by_id Sample.token1
       (send_invite_body Sample.env "alice@example.com" [] [] init).1).2 =
      Ok (Some Sample.alice).
Proof.
  split; [apply not_invited_init|]. split; [reflexivity|]. split; [reflexivity|].
  apply (lookup_issued_token Sample.env "alice@example.com" [] [] init Sample.token1);
    [apply not_invited_init | reflexivity | reflexivity].
Defined.

Lemma second_submission_rejected_witness :
  let d := [("uuid", PStr Sample.token1); ("feedback", PStr "great")] in
  let d2 := [("uuid", PStr Sample.token1); ("feedback", PStr "on second thought")] in
  submit_feedback Sample.env (PDict d) Sample.alice_invited =
    (Sample.alice_redeemed, Ok (Msg "Feedback submitted successfully!", OK))
  ∧ submit_feedback Sample.env (PDict d2) Sample.alice_redeemed =
      (Sample.alice_redeemed,
       Ok (Msg "Feedback already submitted for this UUID.", BAD_REQUEST))
  ∧ UserFeedback.feedback <$> user_feedback (db Sample.alice_redeemed) !! Sample.token1
      = Some (PStr "great")
  ∧ UserFeedback.feedback <$>
      user_feedback (db (submit_feedback Sample.env (PDict d2) Sample.alice_redeemed).1)
        !! Sample.token1 = Some (PStr "great").
Proof.
  intros d d2.
  assert (submit_feedback Sample.env (PDict d) Sample.alice_invited =
            (Sample.alice_redeemed, Ok (Msg "Feedback submitted successfully!", OK)))
    as H by (vm_compute; reflexivity).
  split; [exact H|].
  exact (second_submission_rejected Sample.env d d2 Sample.token1 "great"
           (PStr "on second thought") Sample.alice_invited Sample.alice_redeemed
           eq_refl eq_refl eq_refl eq_refl H).
Defined.

Lemma empty_feedback_accepted_witness :
  consistent (db Sample.alice_invited)
  ∧ feedback (db Sample.alice_invited) !! Sample.token1 = Some Sample.alice
  ∧ is_valid_uuid (PStr Sample.token1) = Ok true
  ∧ validate_email Sample.env "alice@example.com" = true
  ∧ let w1 := (submit_feedback Sample.env (feedback_request Sample.token1 (PStr ""))
                 Sample.alice_invited).1 in
    (submit_feedback Sample.env (feedback_request Sample.token1 (PStr ""))
       Sample.alice_invited).2 = Ok (Msg "Feedback submitted successfully!", OK)
    ∧ feedback (db w1) !! Sample.token1 = Some (Feedback.mk "alice@example.com" true)
    ∧ user_feedback (db w1) !! Sample.token1 =
        Some (UserFeedback.mk "alice@example.com" (PStr ""))
    ∧ ∀ body, submit_feedback Sample.env (feedback_request Sample.token1 body) w1 =
        (w1, Ok (Msg "Feedback already submitted for this UUID.", BAD_REQUEST)).
Proof.
  assert (consistent (db Sample.alice_invited)) as C
    by apply (reachable_invariant Sample.env _ reachable_alice_invited).
  assert (feedback (db Sample.alice_invited) !! Sample.token1 = Some Sample.alice) as F
    by (vm_compute; reflexivity).
  split; [exact C|]. split; [exact F|]. split; [vm_compute; reflexivity|].
  split; [vm_compute; reflexivity|].
  apply (empty_feedback_accepted Sample.env Sample.token1 Sample.alice
           Sample.alice_invited C F);
    vm_compute; reflexivity.
Defined.

Lemma malformed_uuid_invalid_format_witness :
  is_valid_uuid (PStr "not-a-uuid") = Ok false
  ∧ submit_feedback Sample.env (feedback_request "not-a-uuid" (PStr "hello"))
      Sample.alice_invited =
      (Sample.alice_invited, Ok (Msg "Invalid UUID format.", BAD_REQUEST))
  ∧ (submit_feedback Sample.env (feedback_request Sample.token2 (PStr "hello"))
       Sample.alice_invited).2 =
      Ok (Msg ("UUID '" +:+ Sample.token2 +:+ "' not found."), NOT_FOUND)
  ∧ ∃ d s, feedback_request Sample.token2 (PStr "hello") = PDict d
           ∧ dict_get d "uuid" = Some (PStr s)
           ∧ is_valid_uuid (PStr s) = Ok true
           ∧ feedback (db Sample.alice_invited) !! s = None.
Proof.
  pose proof (malformed_uuid_invalid_format Sample.env Sample.alice_invited) as [A B].
  split; [vm_compute; reflexivity|].
  split; [apply (A _ "not-a-uuid" (PStr "hello")); vm_compute; reflexivity|].
  assert ((submit_feedback Sample.env (feedback_request Sample.token2 (PStr "hello"))
             Sample.alice_invited).2 =
          Ok (Msg ("UUID '" +:+ Sample.token2 +:+ "' not found."), NOT_FOUND)) as H
    by (vm_compute; reflexivity).
  split; [exact H|]. exact (B _ _ H).
Defined.

Lemma any_version_passes_format_check_witness :
  let d := [("uuid", PStr Sample.time_based); ("feedback", PStr "hello")] in
  let n := 258133314363070689776975542038781941830%Z in
  uuid.UUID (PStr Sample.time_based) None = Ok n
  ∧ uuid.version n = 1%Z
  ∧ is_valid_uuid (PStr Sample.time_based) = Ok true
  ∧ (submit_feedback Sample.env (PDict d) Sample.alice_invited).2 ≠
      Ok (Msg "Invalid UUID format.", BAD_REQUEST)
  ∧ (feedback (db Sample.alice_invited) !! Sample.time_based = None →
     submit_feedback Sample.env (PDict d) Sample.alice_invited =
       (Sample.alice_invited,
        Ok (Msg ("UUID '" +:+ Sample.time_based +:+ "' not found."), NOT_FOUND))).
Proof.
  intros d n.
  assert (uuid.UUID (PStr Sample.time_based) None = Ok n) as P
    by (vm_compute; reflexivity).
  split; [exact P|]. split; [vm_compute; reflexivity|].
  exact (any_version_passes_format_check Sample.env d Sample.time_based (PStr "hello") n
           Sample.alice_invited P eq_refl eq_refl).
Defined.


Lemma send_invite_entry_validation_witness :
  send_invite Sample.env (invite_request [PNum 5; PStr "alice@example.com"]) init =
    (init, Ok (Msg "Invalid or empty email array.", BAD_REQUEST))
  ∧ send_invite Sample.env (invite_request [PStr ""; PStr "alice@example.com"]) init =
      match send_invite_loop Sample.env [""; "alice@example.com"] [] [] init with
      | (w', Ok (succ, err)) => (w', Ok (Batch succ err, OK))
      | (w', Raise e) => (w', Raise e)
      end
  ∧ ∃ msgs,
      send_invite_body Sample.env "" [] [] init =
        (mkWorld (mkDB (<[Sample.token1 := Feedback.mk "" false]> ∅) ∅) 1 1, Ok msgs).
Proof.
  pose proof (send_invite_entry_validation Sample.env init) as (A & B & C).
  split; [apply (A _ [PNum 5; PStr "alice@example.com"]); reflexivity|].
  split; [apply (B _ [""; "alice@example.com"]); [reflexivity|discriminate]|].
  apply (C [] []); [apply not_invited_init|reflexivity].
Defined.

Lemma record_iff_redeemed_witness :
  reachable Sample.env Sample.alice_redeemed
  ∧ consistent (db Sample.alice_redeemed)
  ∧ is_Some (user_feedback (db Sample.alice_redeemed) !! Sample.token1)
  ∧ feedback (db Sample.alice_redeemed) !! Sample.token1 =
      Some (Feedback.mk "alice@example.com" true).
Proof.
  assert (reachable Sample.env Sample.alice_redeemed) as R.
  { exact (reachable_step Sample.env Sample.alice_invited
             (Submit_feedback (feedback_request Sample.token1 (PStr "great")))
             (reachable_step Sample.env init
                (Send_invite (invite_request [PStr "alice@example.com"]))
                (reachable_init Sample.env))). }
  split; [exact R|].
  split; [exact (proj1 (record_iff_redeemed Sample.env Sample.alice_redeemed R))|].
  split; [vm_compute; eauto | vm_compute; reflexivity].
Defined.

(** ** Where the code departs from the specification *)

(** C3, as stated, fails.  Alice holds an unredeemed token; a submission with
    the empty text is acknowledged, her token is redeemed and a record with
    the empty body is stored. *)
Lemma empty_feedback_counterexample :
  feedback (db Sample.alice_invited) !! Sample.token1 = Some Sample.alice
  ∧ let r := submit_feedback Sample.env (feedback_request Sample.token1 (PStr ""))
               Sample.alice_invited in
    r.2 = Ok (Msg "Feedback submitted successfully!", OK)
    ∧ Feedback.submitted <$> feedback (db r.1) !! Sample.token1 = Some true
    ∧ user_feedback (db r.1) !! Sample.token1 =
        Some (UserFeedback.mk "alice@example.com" (PStr "")).
Proof. vm_compute. repeat split. Qed.

(** C6, where the code departs from it.  A hexadecimal literal of 30 digits
    is not an identifier in any form, yet [int(text, 16)] reads it, so
    [is_valid_uuid], meant to validate the format, accepts it: the request is
    looked up in the table and answered with the not-found message instead
    of the invalid-format one. *)
Lemma hex_literal_passes_format_check :
  canonical Sample.hex_literal = false
  ∧ is_valid_uuid (PStr Sample.hex_literal) = Ok true
  ∧ submit_feedback Sample.env (feedback_request Sample.hex_literal (PStr "hello"))
      Sample.alice_invited =
      (Sample.alice_invited,
       Ok (Msg ("UUID '" +:+ Sample.hex_literal +:+ "' not found."), NOT_FOUND))
  ∧ (submit_feedback Sample.env (feedback_request Sample.hex_literal (PStr "hello"))
       Sample.alice_invited).2 ≠ Ok (Msg "Invalid UUID format.", BAD_REQUEST).
Proof.
  split; [vm_compute; reflexivity|]. split; [vm_compute; reflexivity|].
  assert (submit_feedback Sample.env
            (feedback_request Sample.hex_literal (PStr "hello")) Sample.alice_invited =
          (Sample.alice_invited,
           Ok (Msg ("UUID '" +:+ Sample.hex_literal +:+ "' not found."), NOT_FOUND)))
    as E by (vm_compute; reflexivity).
  split; [exact E|]. rewrite E. discriminate.
Qed.

(** C4, as stated, fails.  A number among the entries makes the handler
    refuse the whole batch: there is no failure list, and the valid address
    next to it gets no token.  An empty string is given a token. *)
Lemma invalid_entry_counterexample :
  send_invite Sample.env (invite_request [PNum 5; PStr "alice@example.com"]) init =
    (init, Ok (Msg "Invalid or empty email array.", BAD_REQUEST))
  ∧ ¬ invited "alice@example.com"
        (feedback (db (send_invite Sample.env
                         (invite_request [PNum 5; PStr "alice@example.com"]) init).1))
  ∧ let r := send_invite Sample.env (invite_request [PStr ""]) init in
    r.2 = Ok (Batch ["Invite sent successfully to "] [], OK)
    ∧ feedback (db r.1) !! Sample.token1 = Some (Feedback.mk "" false).
Proof.
  split; [reflexivity|]. split; [apply not_invited_init|].
  vm_compute. by split.
Qed.


(** ** What a batch of invitations keeps and produces *)

Lemma tokens_kept_refl d : tokens_kept d d.
Proof. by split. Qed.

Lemma tokens_kept_trans d1 d2 d3 :
  tokens_kept d1 d2 → tokens_kept d2 d3 → tokens_kept d1 d3.
Proof.
  intros [A1 B1] [A2 B2]. split; [eauto|]. by rewrite B2.
Qed.

Lemma tokens_kept_invited d d' email :
  tokens_kept d d' → invited email (feedback d) → invited email (feedback d').
Proof. intros [A _] (id & row & H & E). exists id, row. eauto. Qed.

Section Frame.

Context (env : Env).

Lemma send_invite_body_kept email succ err w :
  tokens_kept (db w) (db (send_invite_body env email succ err w).1).
Proof.
  destruct (send_invite_body_cases env email succ err w)
    as [[_ ->]|[(_ & _ & ->)|(N & F & msgs & ->)]]; cbn [fst db];
    [apply tokens_kept_refl..|].
  split; [|done]. intros id row H. cbn [feedback].
  rewrite lookup_insert_ne; [done|]. intros <-. congruence.
Qed.

Lemma send_invite_loop_kept emails succ err w :
  tokens_kept (db w) (db (send_invite_loop env emails succ err w).1).
Proof.
  revert succ err w. induction emails as [|email emails IH]; intros succ err w.
  - apply tokens_kept_refl.
  - simpl. unfold bind.
    pose proof (send_invite_body_kept email succ err w) as K.
    destruct (send_invite_body env email succ err w) as [w1 [[s1 e1]|e]];
      cbn [fst] in *; [|done].
    eapply tokens_kept_trans; [exact K|apply IH].
Qed.

Lemma send_invite_kept data w : tokens_kept (db w) (db (send_invite env data w).1).
Proof.
  destruct (send_invite_cases env data w) as [->|[emails ->]].
  - apply tokens_kept_refl.
  - apply send_invite_loop_kept.
Qed.

(** One turn that ends normally adds one message to one of the lists and
    leaves [email] invited. *)
Lemma send_invite_body_ok email succ err w w1 s1 e1 :
  send_invite_body env email succ err w = (w1, Ok (s1, e1)) →
  invited email (feedback (db w1))
  ∧ ((s1 = succ ∧ ∃ m, e1 = (err ++ [m])%list)
     ∨ (e1 = err ∧ ∃ m, s1 = (succ ++ [m])%list)).
Proof.
  destruct (first (filter_by_email email (feedback (db w)))) as [row|] eqn:E.
  - apply first_filter_by_email_Some in E.
    rewrite (send_invite_body_duplicate env email succ err w E).
    intros [= <- <- <-]. split; [done|]. left. eauto.
  - apply first_filter_by_email_None in E.
    destruct (feedback (db w) !! uuid4 env (uuid_calls w)) as [row|] eqn:F.
    + rewrite (send_invite_body_collision env email succ err w E) by eauto.
      intros [=].
    + rewrite (send_invite_body_fresh env email succ err w E F).
      destruct (mail_send env _ _); intros [= <- <- <-]; cbn [db feedback].
      * split; [|left; eauto].
        exists (uuid4 env (uuid_calls w)), (Feedback.mk email false).
        by rewrite lookup_insert_eq.
      * split; [|right; eauto].
        exists (uuid4 env (uuid_calls w)), (Feedback.mk email false).
        by rewrite lookup_insert_eq.
Qed.

Lemma send_invite_loop_ok emails succ err w w1 s1 e1 :
  send_invite_loop env emails succ err w = (w1, Ok (s1, e1)) →
  (∀ email, email ∈ emails → invited email (feedback (db w1)))
  ∧ length s1 + length e1 = length succ + length err + length emails.
Proof.
  revert succ err w. induction emails as [|email emails IH]; intros succ err w.
  - simpl. unfold ret. intros [= <- <- <-]. split; [|lia].
    intros email H. by apply elem_of_nil in H.
  - simpl. unfold bind.
    destruct (send_invite_body env email succ err w) as [w2 [[s2 e2]|e]] eqn:B;
      [|intros [=]].
    intros L. apply send_invite_body_ok in B as [I C].
    pose proof (send_invite_loop_kept emails s2 e2 w2) as K. rewrite L in K.
    apply IH in L as [A Len]. split.
    + intros x H. apply elem_of_cons in H as [->|H]; [|by apply A].
      by apply (tokens_kept_invited (db w2)).
    + destruct C as [[-> [m ->]]|[-> [m ->]]]; rewrite length_app in Len;
        simpl in *; lia.
Qed.

End Frame.

Section Batches.

Context (env : Env).

(** X1. [send_invite] only ever adds tokens: whatever the request, and also
    when the handler raises half way, every token stored before is stored
    after under the same id with the same email and flag, and the feedback
    records are untouched. *)
Theorem send_invite_only_adds_tokens data w id row :
  feedback (db w) !! id = Some row →
  feedback (db (send_invite env data w).1) !! id = Some row
  ∧ user_feedback (db (send_invite env data w).1) = user_feedback (db w).
Proof.
  intros H. destruct (send_invite_kept env data w) as [A B]. split; [eauto|done].
Qed.

(** X2. When [send_invite] answers a list of strings with its two lists of
    messages, the status is 200, each address of the request has produced
    exactly one message in exactly one of the two lists, and each address
    now has a token. *)
Theorem send_invite_batch_accounts_for_every_email d (l : list string) w w1 succ err c :
  dict_get d "emails" = Some (PList (PStr <$> l)) →
  send_invite env (PDict d) w = (w1, Ok (Batch succ err, c)) →
  c = OK
  ∧ length succ + length err = length l
  ∧ ∀ email, email ∈ l → invited email (feedback (db w1)).
Proof.
  intros H R. destruct l as [|x l].
  { revert R. unfold send_invite, bind, lift, ret. simpl. rewrite H.
    rewrite bool_decide_eq_true_2 by eauto. simpl. intros [=]. }
  rewrite (send_invite_list env d (x :: l) w H) in R by done.
  destruct (send_invite_loop env (x :: l) [] [] w) as [w2 [[s2 e2]|e]] eqn:L;
    [|by inversion R].
  injection R as <- <- <- <-.
  apply send_invite_loop_ok in L as [A Len]. split; [done|]. split; [|done].
  simpl in *. lia.
Qed.

(** X3. Whenever [send_invite] answers with a single message, the status is
    400 and the world is exactly as before: a request that is refused has no
    effect. *)
Theorem send_invite_refusal_has_no_effect data w w1 m c :
  send_invite env data w = (w1, Ok (Msg m, c)) → c = BAD_REQUEST ∧ w1 = w.
Proof.
  unfold send_invite, bind, lift, ret.
  destruct (py_contains "emails" data) as [[|]|]; simpl;
    [|by intros [= <- <- <-]|by intros [=]].
  destruct (py_getitem data "emails") as [emails|]; simpl; [|by intros [=]].
  destruct (py_truthy emails); simpl; [|by intros [= <- <- <-]].
  destruct (py_iter emails) as [items|]; simpl; [|by intros [=]].
  destruct (forallb is_str items); simpl; [|by intros [= <- <- <-]].
  by destruct (send_invite_loop env (omap as_str items) [] [] w) as [w2 [[s2 e2]|e]].
Qed.

(** X4. A failure in the middle of a batch is not rolled back.  When the
    generator draws for the second address the identifier it drew for the
    first, the commit of the second token raises [IntegrityError] and the
    request ends without an answer, yet the token of the first address stays
    stored. *)
Theorem send_invite_raise_keeps_earlier_tokens e1 e2 w :
  e1 ≠ e2 →
  ¬ invited e1 (feedback (db w)) → ¬ invited e2 (feedback (db w)) →
  feedback (db w) !! uuid4 env (uuid_calls w) = None →
  uuid4 env (S (uuid_calls w)) = uuid4 env (uuid_calls w) →
  (send_invite env (invite_request [PStr e1; PStr e2]) w).2 = Raise IntegrityError
  ∧ feedback (db (send_invite env (invite_request [PStr e1; PStr e2]) w).1)
      !! uuid4 env (uuid_calls w) = Some (Feedback.mk e1 false).
Proof.
  intros Ne N1 N2 F Rep. unfold invite_request.
  rewrite (send_invite_list env _ [e1; e2] w) by done.
  simpl. unfold bind.
  rewrite (send_invite_body_fresh env e1 [] [] w N1 F).
  set (w1 := mkWorld _ _ _).
  assert (¬ invited e2 (feedback (db w1))) as N2'.
  { intros (id & row & H & E). subst w1. cbn [db feedback] in H.
    destruct (decide (id = uuid4 env (uuid_calls w))) as [->|Nid].
    - rewrite lookup_insert_eq in H. injection H as <-. by apply Ne.
    - rewrite lookup_insert_ne in H by done. apply N2. by exists id, row. }
  assert (is_Some (feedback (db w1) !! uuid4 env (uuid_calls w1))) as C.
  { subst w1. cbn [db feedback uuid_calls]. rewrite Rep, lookup_insert_eq. eauto. }
  destruct (mail_send env _ _);
    rewrite (send_invite_body_collision env e2 _ _ w1 N2' C);
    subst w1; cbn [fst snd db feedback]; by rewrite lookup_insert_eq.
Qed.

(** X5. A string under [emails] is not refused: the handler walks through
    it character by character and invites each character as if it were an
    address. *)
Theorem send_invite_string_is_walked_by_character d s w :
  dict_get d "emails" = Some (PStr s) → s ≠ "" →
  send_invite env (PDict d) w =
    match send_invite_loop env (Str.chars s) [] [] w with
    | (w', Ok (succ, err)) => (w', Ok (Batch succ err, OK))
    | (w', Raise e) => (w', Raise e)
    end.
Proof.
  intros H N. unfold send_invite, bind, lift, ret. simpl. rewrite H.
  rewrite bool_decide_eq_true_2 by eauto. simpl.
  assert (String.eqb s "" = false) as E by (by destruct s).
  rewrite E. cbn [negb].
  rewrite forallb_is_str_fmap. cbn [negb]. rewrite omap_as_str_fmap.
  by destruct (send_invite_loop env (Str.chars s) [] [] w) as [w1 [[s1 e1]|e]].
Qed.

(** X6. In every world the service can reach no two tokens carry the same
    email. *)
Theorem reachable_one_token_per_email w i j r1 r2 :
  reachable env w →
  feedback (db w) !! i = Some r1 → feedback (db w) !! j = Some r2 →
  Feedback.email r1 = Feedback.email r2 → i = j.
Proof.
  intros R. destruct (reachable_invariant env w R) as [_ U]. apply U.
Qed.

End Batches.

(** ** What the requests keep over time *)

Lemma history_kept_refl d : history_kept d d.
Proof. split; eauto. Qed.

Lemma history_kept_trans d1 d2 d3 :
  history_kept d1 d2 → history_kept d2 d3 → history_kept d1 d3.
Proof.
  intros [A1 B1] [A2 B2]. split; [|eauto].
  intros id row H. apply A1 in H as (r2 & H2 & E2 & S2).
  apply A2 in H2 as (r3 & H3 & E3 & S3). exists r3.
  split; [done|]. split; [congruence|eauto].
Qed.

Lemma tokens_kept_history d d' : tokens_kept d d' → history_kept d d'.
Proof.
  intros [A B]. split.
  - intros id row H. exists row. eauto.
  - intros id u H. by rewrite B.
Qed.

Lemma redeemed_history d t row text :
  feedback d !! t = Some row → user_feedback d !! t = None →
  history_kept d (redeemed t row text d).
Proof.
  intros F U. unfold redeemed. split; cbn [feedback user_feedback].
  - intros id r H. destruct (decide (id = t)) as [->|N].
    + rewrite lookup_insert_eq. eexists. split; [done|].
      assert (r = row) as -> by congruence. by split.
    + rewrite lookup_insert_ne by done. eauto.
  - intros id u H. rewrite lookup_insert_ne; [done|]. intros <-. congruence.
Qed.

Lemma records_match_init : records_match (db init).
Proof. intros t u H. simpl in H. by rewrite lookup_empty in H. Qed.

Lemma records_match_kept d d' :
  tokens_kept d d' → records_match d → records_match d'.
Proof.
  intros [A B] M t u H. rewrite B in H. apply M in H as (row & F & E & S).
  exists row. eauto.
Qed.

Lemma records_match_redeemed d t row text :
  feedback d !! t = Some row → records_match d →
  records_match (redeemed t row text d).
Proof.
  intros F M k u. unfold redeemed. cbn [feedback user_feedback].
  destruct (decide (k = t)) as [->|N].
  - rewrite !lookup_insert_eq. intros [= <-]. eexists. by split.
  - rewrite !lookup_insert_ne by done. apply M.
Qed.

Section History.

Context (env : Env).

Lemma handle_history r w : history_kept (db w) (db (handle env r w).1).
Proof.
  destruct r as [data|data]; simpl.
  - apply tokens_kept_history, send_invite_kept.
  - destruct (submit_feedback_cases env data w)
      as [[-> _]|(d & t & text & row & _ & _ & _ & F & _ & U & ->)].
    + apply history_kept_refl.
    + by apply redeemed_history.
Qed.

Lemma serve_history rs w : history_kept (db w) (db (serve env rs w)).
Proof.
  revert w. induction rs as [|r rs IH]; intros w.
  - apply history_kept_refl.
  - simpl. eapply history_kept_trans; [apply handle_history|apply IH].
Qed.

Lemma handle_records_match r w :
  records_match (db w) → records_match (db (handle env r w).1).
Proof.
  intros M. destruct r as [data|data]; simpl.
  - by apply (records_match_kept (db w)); [apply send_invite_kept|].
  - destruct (submit_feedback_cases env data w)
      as [[-> _]|(d & t & text & row & _ & _ & _ & F & _ & U & ->)]; [done|].
    by apply records_match_redeemed.
Qed.

Lemma reachable_records_match w : reachable env w → records_match (db w).
Proof.
  induction 1 as [|w r _ IH]; [apply records_match_init|].
  by apply handle_records_match.
Qed.

Lemma reachable_serve rs w : reachable env w → reachable env (serve env rs w).
Proof.
  revert w. induction rs as [|r rs IH]; intros w R; [done|].
  simpl. apply IH. by apply reachable_step.
Qed.

(** X7. Tokens are for ever.  Whatever requests are served, in whatever
    order, a token that was stored stays stored under its id with its email,
    and once redeemed it stays redeemed. *)
Theorem tokens_outlive_every_request rs w id row :
  feedback (db w) !! id = Some row →
  ∃ row', feedback (db (serve env rs w)) !! id = Some row'
          ∧ Feedback.email row' = Feedback.email row
          ∧ (Feedback.submitted row = true → Feedback.submitted row' = true).
Proof. intros H. by apply (serve_history rs w). Qed.

(** X8. A feedback record, once stored, is never changed or removed by any
    later request: its email and its text stay what the first accepted
    submission made them. *)
Theorem records_outlive_every_request rs w id u :
  user_feedback (db w) !! id = Some u →
  user_feedback (db (serve env rs w)) !! id = Some u.
Proof. intros H. by apply (serve_history rs w). Qed.


(** X10. An object that lacks [uuid] or [feedback] is refused by
    [submit_feedback], and an object that lacks [emails] by [send_invite],
    each with its own message and status 400, whatever else the object
    holds; the world is unchanged. *)
Theorem missing_key_is_refused d w :
  (dict_get d "uuid" = None ∨ dict_get d "feedback" = None →
   submit_feedback env (PDict d) w =
     (w, Ok (Msg "Invalid or missing 'uuid' or 'feedback' in the JSON payload.",
             BAD_REQUEST)))
  ∧ (dict_get d "emails" = None →
     send_invite env (PDict d) w =
       (w, Ok (Msg "No 'emails' key found in the JSON payload.", BAD_REQUEST))).
Proof.
  split.
  - intros H. unfold submit_feedback, bind, lift, ret. simpl.
    destruct (dict_get d "uuid") as [v|] eqn:Hu.
    + destruct H as [H|H]; [done|]. rewrite H.
      rewrite bool_decide_eq_true_2 by eauto.
      by rewrite bool_decide_eq_false_2 by (by intros [? ?]).
    + by rewrite bool_decide_eq_false_2 by (by intros [? ?]).
  - intros H. unfold send_invite, bind, lift, ret. simpl. rewrite H.
    by rewrite bool_decide_eq_false_2 by (by intros [? ?]).
Qed.

(** A token whose address [validate_email] rejects is never redeemed. *)
Lemma submit_feedback_keeps_unredeemable data w id email :
  validate_email env email = false →
  feedback (db w) !! id = Some (Feedback.mk email false) →
  feedback (db (submit_feedback env data w).1) !! id = Some (Feedback.mk email false).
Proof.
  intros E F.
  destruct (submit_feedback_shape env data w)
    as [(d & t & text & -> & Hu & Hf)|[[e ->]| ->]]; [|done..].
  rewrite (submit_feedback_dict env d t text w Hu Hf). unfold submit_feedback_on.
  destruct (valid_uuid_text t); cbn [negb]; [|done].
  destruct (feedback (db w) !! t) as [row|] eqn:Ft; [|done].
  destruct (Feedback.submitted row); [done|].
  destruct (validate_email env (Feedback.email row)) eqn:V; cbn [negb]; [|done].
  destruct (user_feedback (db w) !! t); [done|].
  destruct (bind_text text); [|done].
  cbn [fst db]. unfold redeemed. cbn [feedback].
  rewrite lookup_insert_ne; [done|].
  intros <-. rewrite F in Ft. injection Ft as <-. simpl in V. congruence.
Qed.

Lemma handle_keeps_unredeemable r w id email :
  validate_email env email = false →
  feedback (db w) !! id = Some (Feedback.mk email false) →
  feedback (db (handle env r w).1) !! id = Some (Feedback.mk email false).
Proof.
  intros E F. destruct r as [data|data]; simpl.
  - by apply (send_invite_kept env data w).
  - by apply submit_feedback_keeps_unredeemable.
Qed.

Lemma serve_keeps_unredeemable rs w id email :
  validate_email env email = false →
  feedback (db w) !! id = Some (Feedback.mk email false) →
  feedback (db (serve env rs w)) !! id = Some (Feedback.mk email false).
Proof.
  intros E. revert w. induction rs as [|r rs IH]; intros w F; [done|].
  simpl. apply IH. by apply handle_keeps_unredeemable.
Qed.

(** X11. The address is only validated when the token is redeemed.  An
    address that [validate_email] rejects is invited all the same: the turn
    of the loop ends normally and stores a token for it.  From then on,
    whatever requests are served in between, the token stays unredeemed and
    every submission for it is refused with the invalid-address message,
    changing nothing. *)
Theorem invalid_address_is_invited_but_cannot_redeem email succ err rs text w :
  validate_email env email = false →
  ¬ invited email (feedback (db w)) →
  feedback (db w) !! uuid4 env (uuid_calls w) = None →
  is_valid_uuid (PStr (uuid4 env (uuid_calls w))) = Ok true →
  let id := uuid4 env (uuid_calls w) in
  let w' := (send_invite_body env email succ err w).1 in
  let w'' := serve env rs w' in
  (∃ msgs, (send_invite_body env email succ err w).2 = Ok msgs)
  ∧ feedback (db w') !! id = Some (Feedback.mk email false)
  ∧ feedback (db w'') !! id = Some (Feedback.mk email false)
  ∧ submit_feedback env (feedback_request id text) w'' =
      (w'', Ok (Msg "Invalid email address.", BAD_REQUEST)).
Proof.
  intros E N F V id w' w''.
  assert (feedback (db w') !! id = Some (Feedback.mk email false)) as F'.
  { subst w'. rewrite (send_invite_body_fresh env email succ err w N F).
    cbn [fst db feedback]. by rewrite lookup_insert_eq. }
  assert (feedback (db w'') !! id = Some (Feedback.mk email false)) as F''
    by (by apply serve_keeps_unredeemable).
  split.
  { rewrite (send_invite_body_fresh env email succ err w N F). cbn [snd]. eauto. }
  split; [done|]. split; [done|].
  rewrite is_valid_uuid_str in V. injection V as V.
  rewrite submit_feedback_request. unfold submit_feedback_on.
  fold id in V. rewrite V. cbn [negb]. rewrite F''.
  cbn [Feedback.submitted Feedback.email]. by rewrite E.
Qed.

(** X12. A [null] under [feedback] passes every check of the handler and
    fails in the commit, the column being declared [nullable=False]:
    [IntegrityError] leaves [submit_feedback], nothing is stored, and the
    token is still unredeemed. *)
Theorem null_feedback_raises_in_commit t row w :
  consistent (db w) →
  feedback (db w) !! t = Some row → Feedback.submitted row = false →
  is_valid_uuid (PStr t) = Ok true →
  validate_email env (Feedback.email row) = true →
  submit_feedback env (feedback_request t PNone) w = (w, Raise IntegrityError).
Proof.
  intros C F S V E.
  rewrite is_valid_uuid_str in V. injection V as V.
  assert (user_feedback (db w) !! t = None) as U.
  { destruct (user_feedback (db w) !! t) eqn:U; [|done].
    assert (is_Some (user_feedback (db w) !! t)) as I by eauto.
    apply C in I as (row' & F' & S'). congruence. }
  rewrite submit_feedback_request. unfold submit_feedback_on.
  by rewrite V, F, S, E, U.
Qed.

End History.

(** ** Listing the feedback *)

Lemma item_in_listing (m : gmap string UserFeedback.t) t e f :
  mkItem t e f ∈
    ((λ kv : string * UserFeedback.t,
        mkItem kv.1 (UserFeedback.email kv.2) (UserFeedback.feedback kv.2))
       <$> map_to_list m)
  ↔ m !! t = Some (UserFeedback.mk e f).
Proof.
  rewrite list_elem_of_fmap. split.
  - intros ([k [e' f']] & [= -> -> ->] & H). by apply elem_of_map_to_list in H.
  - intros H. exists (t, UserFeedback.mk e f). split; [done|].
    by apply elem_of_map_to_list.
Qed.

Lemma listing_ids (m : gmap string UserFeedback.t) :
  item_id <$>
    ((λ kv : string * UserFeedback.t,
        mkItem kv.1 (UserFeedback.email kv.2) (UserFeedback.feedback kv.2))
       <$> map_to_list m)
  = (map_to_list m).*1.
Proof. rewrite <- list_fmap_compose. by apply list_fmap_ext. Qed.

Lemma redeemed_tokens_lookup tbl t row :
  redeemed_tokens tbl !! t = Some row ↔
  tbl !! t = Some row ∧ Feedback.submitted row = true.
Proof. unfold redeemed_tokens. by rewrite map_lookup_filter_Some. Qed.

Lemma consistent_dom d :
  consistent d → dom (user_feedback d) = dom (redeemed_tokens (feedback d)).
Proof.
  intros C. apply set_eq. intros t. rewrite !elem_of_dom. rewrite (C t). split.
  - intros (row & F & S). exists row. by apply redeemed_tokens_lookup.
  - intros [row H]. apply redeemed_tokens_lookup in H. eauto.
Qed.

Section Listing.

Context (env : Env).

(** X13. [get_all_feedbacks] answers 200 and changes nothing; an entry is
    listed exactly when the record of that id holds that email and that
    text, and no id is listed twice. *)
Theorem get_all_feedbacks_lists_the_records w :
  ∃ items,
    get_all_feedbacks w = (w, Ok (items, OK))
    ∧ (∀ t e f, mkItem t e f ∈ items ↔
                user_feedback (db w) !! t = Some (UserFeedback.mk e f))
    ∧ NoDup (item_id <$> items)
    ∧ length items = size (user_feedback (db w)).
Proof.
  eexists. split; [reflexivity|]. split; [|split].
  - intros t e f. apply item_in_listing.
  - rewrite listing_ids. apply NoDup_fst_map_to_list.
  - by rewrite length_fmap, length_map_to_list.
Qed.

(** X14. What a submission stores is what the listing shows.  After
    [submit_feedback] has acknowledged a request carrying the text [text],
    [get_all_feedbacks] lists an entry with the submitted id, the email the
    token was issued to and that text. *)
Theorem acknowledged_feedback_is_listed d t (text : string) w w1 row :
  dict_get d "uuid" = Some (PStr t) → dict_get d "feedback" = Some (PStr text) →
  feedback (db w) !! t = Some row →
  submit_feedback env (PDict d) w =
    (w1, Ok (Msg "Feedback submitted successfully!", OK)) →
  ∃ items, (get_all_feedbacks w1).2 = Ok (items, OK)
           ∧ mkItem t (Feedback.email row) (PStr text) ∈ items.
Proof.
  intros Hu Hf F H.
  rewrite (submit_feedback_dict env d t (PStr text) w Hu Hf) in H.
  apply submit_feedback_on_success in H as (_ & row' & stored & F' & _ & _ & B & ->).
  injection B as <-.
  assert (row' = row) as -> by congruence.
  eexists. split; [reflexivity|]. apply item_in_listing.
  unfold redeemed. cbn [db user_feedback]. by rewrite lookup_insert_eq.
Qed.

(** X15. In every world the service can reach, each entry of the listing
    belongs to a redeemed token of the same id and shows the email that
    token was issued to. *)
Theorem listed_feedback_has_a_redeemed_token w items t e f :
  reachable env w →
  (get_all_feedbacks w).2 = Ok (items, OK) →
  mkItem t e f ∈ items →
  feedback (db w) !! t = Some (Feedback.mk e true).
Proof.
  intros R [= <-] H. apply item_in_listing in H.
  apply (reachable_records_match env w R) in H as ([e' s'] & F & E & S).
  simpl in *. by subst.
Qed.

(** X16. In every world the service can reach, the listing has as many
    entries as there are redeemed tokens. *)
Theorem listing_counts_the_redeemed_tokens w items :
  reachable env w →
  (get_all_feedbacks w).2 = Ok (items, OK) →
  length items = size (redeemed_tokens (feedback (db w))).
Proof.
  intros R [= <-]. rewrite length_fmap, length_map_to_list.
  destruct (reachable_invariant env w R) as [C _].
  rewrite <- (size_dom (user_feedback (db w))).
  rewrite <- (size_dom (redeemed_tokens (feedback (db w)))).
  by rewrite (consistent_dom (db w) C).
Qed.

End Listing.

(** ** The texts [is_valid_uuid] accepts *)

(** Facts on single characters, by going through the 256 of them. *)
Ltac by_ascii_cases c :=
  destruct c as [[] [] [] [] [] [] [] []]; vm_compute; intuition congruence.

Lemma hex_digit_bounds c d : PyInt.hex_digit c = Some d → (0 ≤ d < 16)%Z.
Proof.
  destruct c as [[] [] [] [] [] [] [] []]; vm_compute; intros [= <-]; split;
    congruence.
Qed.

Lemma is_hex_plain c :
  is_hex c = true →
  PyInt.to_ascii_space c = c ∧ PyInt.is_space c = false
  ∧ PyInt.is_underscore c = false
  ∧ Ascii.eqb c "+"%char = false ∧ Ascii.eqb c "-"%char = false
  ∧ (Ascii.eqb c "x"%char || Ascii.eqb c "X"%char) = false
  ∧ Str.mem c "{}" = false
  ∧ Ascii.eqb "u"%char c = false.
Proof. by_ascii_cases c. Qed.

Lemma hyphen_plain c :
  Ascii.eqb c "-"%char = true →
  Str.mem c "{}" = false ∧ Ascii.eqb "u"%char c = false.
Proof. by_ascii_cases c. Qed.

Lemma remove_absent c0 old s :
  Str.mem c0 s = false → Str.remove (String c0 old) s = s.
Proof.
  unfold Str.remove, Str.mem. induction s as [|c s IH]; [done|].
  cbn [list_ascii_of_string existsb Str.remove_from Str.startswith].
  intros H. apply orb_false_iff in H as [H1 H2].
  rewrite H1. cbn [andb]. by rewrite IH.
Qed.

Lemma remove_hyphens s : Str.remove "-" s = drop_hyphens s.
Proof.
  unfold Str.remove. induction s as [|c s IH]; [done|].
  cbn [Str.remove_from Str.startswith drop_hyphens String.length Nat.pred].
  rewrite Ascii.eqb_sym, andb_true_r.
  destruct (Ascii.eqb c "-"%char); by rewrite IH.
Qed.

Lemma mem_cons c0 c s :
  Str.mem c0 (String c s) = Ascii.eqb c0 c || Str.mem c0 s.
Proof. reflexivity. Qed.

(** A text of digits and hyphens holds no [u] and no brace. *)
Lemma digits_and_hyphens_plain s :
  all_hex (drop_hyphens s) = true →
  Str.mem "u"%char s = false
  ∧ Str.lstrip "{}" s = s ∧ Str.rstrip "{}" s = s.
Proof.
  induction s as [|c s IH]; [done|].
  rewrite mem_cons. cbn [drop_hyphens Str.lstrip Str.rstrip].
  destruct (Ascii.eqb c "-"%char) eqn:E.
  - intros H. destruct (IH H) as (A & B & C).
    destruct (hyphen_plain c E) as [M U]. rewrite U, A, M, C.
    split; [done|]. split; [done|]. by destruct s.
  - cbn [all_hex]. intros H. apply andb_true_iff in H as [X H].
    destruct (IH H) as (A & B & C).
    destruct (is_hex_plain c X) as (_ & _ & _ & _ & _ & _ & M & U).
    rewrite U, A, M, C. split; [done|]. split; [done|]. by destruct s.
Qed.

Lemma all_hex_forallb s :
  all_hex s = true → forallb is_hex (list_ascii_of_string s) = true.
Proof.
  induction s as [|c s IH]; [done|]. simpl. intros H.
  apply andb_true_iff in H as [-> H]. by rewrite IH.
Qed.

Lemma map_to_ascii_space_hex l :
  forallb is_hex l = true → map PyInt.to_ascii_space l = l.
Proof.
  induction l as [|c l IH]; [done|]. simpl. intros H.
  apply andb_true_iff in H as [X H].
  destruct (is_hex_plain c X) as (-> & _). by rewrite IH.
Qed.

(** The digit loop eats a run of digits whole, and its value stays below
    the next power of 16. *)
Lemma digits_all_hex l :
  forallb is_hex l = true →
  ∀ seen acc, (0 ≤ acc)%Z →
    ∃ v, PyInt.digits false seen acc l =
           Some (v, seen || negb (Nat.eqb (length l) 0), [])
         ∧ (acc * 16 ^ Z.of_nat (length l) ≤ v
            < (acc + 1) * 16 ^ Z.of_nat (length l))%Z.
Proof.
  induction l as [|c l IH]; intros H seen acc A.
  - exists acc. simpl. rewrite orb_false_r. split; [done|lia].
  - simpl in H. apply andb_true_iff in H as [X H].
    unfold is_hex in X. destruct (PyInt.hex_digit c) as [d|] eqn:D; [|done].
    pose proof (hex_digit_bounds c d D) as Bd.
    destruct (IH H true (acc * 16 + d)%Z ltac:(lia)) as (v & E & B).
    exists v. cbn [PyInt.digits length Nat.eqb negb]. rewrite D, E.
    rewrite orb_true_r. split; [by rewrite orb_true_l|].
    rewrite Nat2Z.inj_succ, Z.pow_succ_r by lia. nia.
Qed.

Lemma parse16_all_hex h :
  all_hex h = true → String.length h = 32 →
  ∃ v, PyInt.parse16 h = Some v ∧ (0 ≤ v < Z.shiftl 1 128)%Z.
Proof.
  intros A L. apply all_hex_forallb in A.
  assert (length (list_ascii_of_string h) = 32) as L'.
  { clear A. revert L. generalize 32. induction h as [|c h IH]; intros n; [done|].
    simpl. destruct n; [done|]. intros [= E]. by rewrite (IH n E). }
  unfold PyInt.parse16. rewrite (map_to_ascii_space_hex _ A).
  destruct (list_ascii_of_string h) as [|c1 [|c2 l]] eqn:E; [done|done|].
  pose proof A as A'. cbn [forallb] in A'.
  apply andb_true_iff in A' as [X1 A']. apply andb_true_iff in A' as [X2 _].
  destruct (is_hex_plain c1 X1) as (_ & S1 & U1 & P1 & M1 & _).
  destruct (is_hex_plain c2 X2) as (_ & _ & _ & _ & _ & XX & _).
  cbn [PyInt.skip_spaces]. rewrite S1.
  cbn [PyInt.skip_sign]. rewrite P1, M1.
  cbn [PyInt.skip_prefix]. rewrite XX, andb_false_r. rewrite U1.
  destruct (digits_all_hex (c1 :: c2 :: l) A false 0%Z ltac:(lia)) as (v & D & B).
  rewrite D. cbn [length Nat.eqb negb orb PyInt.skip_spaces].
  exists v. split; [done|]. rewrite L' in B.
  change (Z.shiftl 1 128) with (16 ^ Z.of_nat 32)%Z. lia.
Qed.

(** What is left once prefixes and braces are gone decides. *)
Lemma is_valid_uuid_cleaned x s :
  Str.strip "{}" (Str.remove "uuid:" (Str.remove "urn:" x)) = s →
  canonical s = true →
  is_valid_uuid (PStr x) = Ok true.
Proof.
  intros C K. unfold canonical in K. apply andb_true_iff in K as [A L].
  apply Nat.eqb_eq in L.
  destruct (parse16_all_hex (drop_hyphens s) A L) as (v & P & [B1 B2]).
  unfold is_valid_uuid, uuid.UUID. cbv zeta. rewrite C, remove_hyphens, L, P.
  cbn [Nat.eqb negb].
  assert ((0 <=? v)%Z && (v <? Z.shiftl 1 128)%Z = true) as R.
  { apply andb_true_iff. split; [by apply Z.leb_le|by apply Z.ltb_lt]. }
  by rewrite R.
Qed.

Lemma canonical_cleaned s :
  canonical s = true →
  Str.strip "{}" (Str.remove "uuid:" (Str.remove "urn:" s)) = s.
Proof.
  intros K. unfold canonical in K. apply andb_true_iff in K as [A _].
  destruct (digits_and_hyphens_plain s A) as (U & Lst & Rst).
  rewrite (remove_absent "u"%char "rn:" s U), (remove_absent "u"%char "uid:" s U).
  unfold Str.strip. by rewrite Lst, Rst.
Qed.

Lemma mem_append c a b : Str.mem c (a +:+ b) = Str.mem c a || Str.mem c b.
Proof.
  induction a as [|x a IH]; [done|].
  change (String x a +:+ b) with (String x (a +:+ b)).
  by rewrite !mem_cons, IH, orb_assoc.
Qed.

Lemma rstrip_closing_brace s :
  all_hex (drop_hyphens s) = true → Str.rstrip "{}" (s +:+ "}") = s.
Proof.
  induction s as [|c s IH]; [done|].
  change (String c s +:+ "}") with (String c (s +:+ "}")).
  cbn [drop_hyphens Str.rstrip]. intros H.
  assert (all_hex (drop_hyphens s) = true ∧ Str.mem c "{}" = false) as [H' M].
  { destruct (Ascii.eqb c "-"%char) eqn:E.
    - split; [done|]. by destruct (hyphen_plain c E).
    - cbn [all_hex] in H. apply andb_true_iff in H as [X H]. split; [done|].
      by destruct (is_hex_plain c X) as (_ & _ & _ & _ & _ & _ & M & _). }
  rewrite (IH H'). destruct s; [|done]. by rewrite M.
Qed.

Lemma braced_cleaned s :
  canonical s = true →
  Str.strip "{}" (Str.remove "uuid:" (Str.remove "urn:" ("{" +:+ s +:+ "}"))) = s.
Proof.
  intros K. unfold canonical in K. apply andb_true_iff in K as [A L].
  destruct (digits_and_hyphens_plain s A) as (U & Lst & Rst).
  assert (Str.mem "u"%char ("{" +:+ s +:+ "}") = false) as U'.
  { change ("{" +:+ s +:+ "}") with (String "{"%char (s +:+ "}")).
    by rewrite mem_cons, mem_append, U. }
  rewrite (remove_absent "u"%char "rn:" _ U'), (remove_absent "u"%char "uid:" _ U').
  unfold Str.strip.
  change ("{" +:+ s +:+ "}") with (String "{"%char (s +:+ "}")).
  cbn [Str.lstrip]. change (Str.mem "{"%char "{}") with true. cbn iota.
  destruct s as [|c s]; [done|].
  assert (Str.lstrip "{}" (String c s +:+ "}") = String c s +:+ "}") as ->.
  { change (String c s +:+ "}") with (String c (s +:+ "}")).
    cbn [Str.lstrip]. revert Lst. cbn [Str.lstrip].
    destruct (Str.mem c "{}"); [|done].
    intros E. exfalso. assert (String.length (Str.lstrip "{}" s) <= String.length s)%nat.
    { clear. induction s as [|x s IH]; [done|]. cbn [Str.lstrip].
      destruct (Str.mem x "{}"); simpl in *; lia. }
    rewrite E in H. simpl in H. lia. }
  by apply rstrip_closing_brace.
Qed.

Section Accepted.

Context (env : Env).

(** X17. Every text made of 32 hexadecimal digits, in either case, with
    hyphens anywhere between them, passes [is_valid_uuid]: in particular
    every identifier in the 8-4-4-4-12 form that [send_invite] mails out. *)
Theorem is_valid_uuid_accepts_canonical s :
  canonical s = true → is_valid_uuid (PStr s) = Ok true.
Proof.
  intros K. apply (is_valid_uuid_cleaned s s); [|done]. by apply canonical_cleaned.
Qed.

(** X18. The format check is laxer than the lookup.  A canonical identifier
    wrapped in braces passes [is_valid_uuid], but the table is searched for
    the text as it was sent: when the table holds the identifier only without
    braces, the answer is the not-found message although the token exists. *)
Theorem braced_uuid_passes_but_is_not_found d s text row w :
  canonical s = true →
  dict_get d "uuid" = Some (PStr ("{" +:+ s +:+ "}")) →
  dict_get d "feedback" = Some text →
  feedback (db w) !! s = Some row →
  feedback (db w) !! ("{" +:+ s +:+ "}") = None →
  is_valid_uuid (PStr ("{" +:+ s +:+ "}")) = Ok true
  ∧ submit_feedback env (PDict d) w =
      (w, Ok (Msg ("UUID '" +:+ ("{" +:+ s +:+ "}") +:+ "' not found."), NOT_FOUND)).
Proof.
  intros K Hu Hf _ N.
  assert (is_valid_uuid (PStr ("{" +:+ s +:+ "}")) = Ok true) as V.
  { apply (is_valid_uuid_cleaned _ s); [|done]. by apply braced_cleaned. }
  split; [done|].
  rewrite (submit_feedback_dict env d _ text w Hu Hf). unfold submit_feedback_on.
  rewrite is_valid_uuid_str in V. injection V as ->. cbn [negb]. by rewrite N.
Qed.

(** X19. [feedback_form] serves the page for every non-empty [uuid]
    parameter without looking at it: a text that [is_valid_uuid] rejects
    gets the form, and any submission made with it is then refused by
    [submit_feedback] with the format message. *)
Theorem feedback_form_does_not_check_the_uuid s text w :
  s ≠ "" → is_valid_uuid (PStr s) = Ok false →
  feedback_form (Some s) = (Rendered "feedback_form.html", OK)
  ∧ submit_feedback env (feedback_request s text) w =
      (w, Ok (Msg "Invalid UUID format.", BAD_REQUEST)).
Proof.
  intros N V. split.
  - unfold feedback_form. by destruct s.
  - rewrite submit_feedback_request. unfold submit_feedback_on.
    rewrite is_valid_uuid_str in V. by injection V as ->.
Qed.

End Accepted.

(** ** The further properties at concrete inputs *)

Lemma reachable_alice_redeemed : reachable Sample.env Sample.alice_redeemed.
Proof.
  exact (reachable_step Sample.env Sample.alice_invited
           (Submit_feedback (feedback_request Sample.token1 (PStr "great")))
           reachable_alice_invited).
Qed.

Lemma send_invite_only_adds_tokens_witness :
  feedback (db Sample.alice_invited) !! Sample.token1 = Some Sample.alice
  ∧ feedback (db (send_invite Sample.env (invite_request [PStr "bob@example.com"])
                    Sample.alice_invited).1) !! Sample.token1 = Some Sample.alice
  ∧ user_feedback (db (send_invite Sample.env (invite_request [PStr "bob@example.com"])
                         Sample.alice_invited).1)
    = user_feedback (db Sample.alice_invited).
Proof.
  assert (feedback (db Sample.alice_invited) !! Sample.token1 = Some Sample.alice) as F
    by (vm_compute; reflexivity).
  split; [exact F|].
  exact (send_invite_only_adds_tokens Sample.env
           (invite_request [PStr "bob@example.com"]) Sample.alice_invited
           Sample.token1 Sample.alice F).
Defined.

Lemma send_invite_batch_accounts_for_every_email_witness :
  let d := [("emails", PList [PStr "alice@example.com"; PStr "alice@example.com"])] in
  let w1 := (send_invite Sample.env (PDict d) init).1 in
  send_invite Sample.env (PDict d) init =
    (w1, Ok (Batch ["Invite sent successfully to alice@example.com"]
                   ["Email 'alice@example.com' already invited!"], OK))
  ∧ OK = OK
  ∧ length ["Invite sent successfully to alice@example.com"]
    + length ["Email 'alice@example.com' already invited!"]
    = length ["alice@example.com"; "alice@example.com"]
  ∧ ∀ email, email ∈ ["alice@example.com"; "alice@example.com"] →
             invited email (feedback (db w1)).
Proof.
  intros d w1.
  assert (send_invite Sample.env (PDict d) init =
            (w1, Ok (Batch ["Invite sent successfully to alice@example.com"]
                           ["Email 'alice@example.com' already invited!"], OK))) as R
    by (vm_compute; reflexivity).
  split; [exact R|].
  exact (send_invite_batch_accounts_for_every_email Sample.env d
           ["alice@example.com"; "alice@example.com"] init w1 _ _ OK eq_refl R).
Defined.

Lemma send_invite_refusal_has_no_effect_witness :
  send_invite Sample.env (invite_request []) Sample.alice_invited =
    (Sample.alice_invited, Ok (Msg "Invalid or empty email array.", BAD_REQUEST))
  ∧ BAD_REQUEST = BAD_REQUEST ∧ Sample.alice_invited = Sample.alice_invited.
Proof.
  assert (send_invite Sample.env (invite_request []) Sample.alice_invited =
            (Sample.alice_invited,
             Ok (Msg "Invalid or empty email array.", BAD_REQUEST))) as R
    by reflexivity.
  split; [exact R|].
  exact (send_invite_refusal_has_no_effect Sample.env _ _ _ _ _ R).
Defined.

Lemma send_invite_raise_keeps_earlier_tokens_witness :
  "alice@example.com" ≠ "bob@example.com"
  ∧ uuid4 Sample.env_repeating 1 = uuid4 Sample.env_repeating 0
  ∧ (send_invite Sample.env_repeating
       (invite_request [PStr "alice@example.com"; PStr "bob@example.com"]) init).2
    = Raise IntegrityError
  ∧ feedback (db (send_invite Sample.env_repeating
                    (invite_request [PStr "alice@example.com"; PStr "bob@example.com"])
                    init).1) !! Sample.token1 = Some Sample.alice.
Proof.
  split; [discriminate|]. split; [reflexivity|].
  apply (send_invite_raise_keeps_earlier_tokens Sample.env_repeating
           "alice@example.com" "bob@example.com" init);
    [discriminate | apply not_invited_init | apply not_invited_init
     | reflexivity | reflexivity].
Defined.

Lemma send_invite_string_is_walked_by_character_witness :
  "ab" ≠ ""
  ∧ send_invite Sample.env (PDict [("emails", PStr "ab")]) init =
      match send_invite_loop Sample.env ["a"; "b"] [] [] init with
      | (w', Ok (succ, err)) => (w', Ok (Batch succ err, OK))
      | (w', Raise e) => (w', Raise e)
      end
  ∧ (send_invite Sample.env (PDict [("emails", PStr "ab")]) init).2 =
      Ok (Batch ["Invite sent successfully to a"; "Invite sent successfully to b"] [],
          OK).
Proof.
  split; [discriminate|].
  split; [|vm_compute; reflexivity].
  apply (send_invite_string_is_walked_by_character Sample.env
           [("emails", PStr "ab")] "ab" init); [reflexivity|discriminate].
Defined.

Lemma reachable_one_token_per_email_witness :
  reachable Sample.env Sample.alice_invited
  ∧ feedback (db Sample.alice_invited) !! Sample.token1 = Some Sample.alice
  ∧ Sample.token1 = Sample.token1.
Proof.
  assert (feedback (db Sample.alice_invited) !! Sample.token1 = Some Sample.alice) as F
    by (vm_compute; reflexivity).
  split; [exact reachable_alice_invited|]. split; [exact F|].
  exact (reachable_one_token_per_email Sample.env Sample.alice_invited
           Sample.token1 Sample.token1 Sample.alice Sample.alice
           reachable_alice_invited F F eq_refl).
Defined.

Lemma tokens_outlive_every_request_witness :
  let rs := [Submit_feedback (feedback_request Sample.token1 (PStr "great"));
             Send_invite (invite_request [PStr "alice@example.com"])] in
  feedback (db Sample.alice_invited) !! Sample.token1 = Some Sample.alice
  ∧ ∃ row', feedback (db (serve Sample.env rs Sample.alice_invited)) !! Sample.token1
            = Some row'
            ∧ Feedback.email row' = "alice@example.com"
            ∧ (Feedback.submitted Sample.alice = true → Feedback.submitted row' = true).
Proof.
  intros rs.
  assert (feedback (db Sample.alice_invited) !! Sample.token1 = Some Sample.alice) as F
    by (vm_compute; reflexivity).
  split; [exact F|].
  exact (tokens_outlive_every_request Sample.env rs Sample.alice_invited
           Sample.token1 Sample.alice F).
Defined.

Lemma records_outlive_every_request_witness :
  let rs := [Submit_feedback (feedback_request Sample.token1 (PStr "on second thought"));
             Send_invite (invite_request [PStr "bob@example.com"])] in
  let u := UserFeedback.mk "alice@example.com" (PStr "great") in
  user_feedback (db Sample.alice_redeemed) !! Sample.token1 = Some u
  ∧ user_feedback (db (serve Sample.env rs Sample.alice_redeemed)) !! Sample.token1
    = Some u.
Proof.
  intros rs u.
  assert (user_feedback (db Sample.alice_redeemed) !! Sample.token1 = Some u) as F
    by (vm_compute; reflexivity).
  split; [exact F|].
  exact (records_outlive_every_request Sample.env rs Sample.alice_redeemed
           Sample.token1 u F).
Defined.


Lemma missing_key_is_refused_witness :
  let d := [("uuid", PStr Sample.token1)] in
  dict_get d "feedback" = None
  ∧ dict_get d "emails" = None
  ∧ submit_feedback Sample.env (PDict d) Sample.alice_invited =
      (Sample.alice_invited,
       Ok (Msg "Invalid or missing 'uuid' or 'feedback' in the JSON payload.",
               BAD_REQUEST))
  ∧ send_invite Sample.env (PDict d) Sample.alice_invited =
      (Sample.alice_invited,
       Ok (Msg "No 'emails' key found in the JSON payload.", BAD_REQUEST)).
Proof.
  intros d. split; [reflexivity|]. split; [reflexivity|].
  destruct (missing_key_is_refused Sample.env d Sample.alice_invited) as [A B].
  split; [apply A; right; reflexivity | apply B; reflexivity].
Defined.

Lemma invalid_address_is_invited_but_cannot_redeem_witness :
  let rs := [Submit_feedback (feedback_request Sample.token1 (PStr "hello"));
             Send_invite (invite_request [PStr "bob@example.com"])] in
  let w' := (send_invite_body Sample.env "not-an-address" [] [] init).1 in
  let w'' := serve Sample.env rs w' in
  validate_email Sample.env "not-an-address" = false
  ∧ is_valid_uuid (PStr Sample.token1) = Ok true
  ∧ (∃ msgs, (send_invite_body Sample.env "not-an-address" [] [] init).2 = Ok msgs)
  ∧ feedback (db w') !! Sample.token1 = Some (Feedback.mk "not-an-address" false)
  ∧ feedback (db w'') !! Sample.token1 = Some (Feedback.mk "not-an-address" false)
  ∧ submit_feedback Sample.env (feedback_request Sample.token1 (PStr "hello")) w'' =
      (w'', Ok (Msg "Invalid email address.", BAD_REQUEST)).
Proof.
  intros rs w' w''. split; [reflexivity|]. split; [vm_compute; reflexivity|].
  apply (invalid_address_is_invited_but_cannot_redeem Sample.env "not-an-address"
           [] [] rs (PStr "hello") init);
    [reflexivity | apply not_invited_init | reflexivity | vm_compute; reflexivity].
Defined.

Lemma null_feedback_raises_in_commit_witness :
  consistent (db Sample.alice_invited)
  ∧ feedback (db Sample.alice_invited) !! Sample.token1 = Some Sample.alice
  ∧ submit_feedback Sample.env (feedback_request Sample.token1 PNone)
      Sample.alice_invited = (Sample.alice_invited, Raise IntegrityError).
Proof.
  assert (consistent (db Sample.alice_invited)) as C
    by apply (reachable_invariant Sample.env _ reachable_alice_invited).
  assert (feedback (db Sample.alice_invited) !! Sample.token1 = Some Sample.alice) as F
    by (vm_compute; reflexivity).
  split; [exact C|]. split; [exact F|].
  apply (null_feedback_raises_in_commit Sample.env Sample.token1 Sample.alice
           Sample.alice_invited C F); vm_compute; reflexivity.
Defined.

Lemma acknowledged_feedback_is_listed_witness :
  let d := [("uuid", PStr Sample.token1); ("feedback", PStr "great")] in
  feedback (db Sample.alice_invited) !! Sample.token1 = Some Sample.alice
  ∧ submit_feedback Sample.env (PDict d) Sample.alice_invited =
      (Sample.alice_redeemed, Ok (Msg "Feedback submitted successfully!", OK))
  ∧ ∃ items, (get_all_feedbacks Sample.alice_redeemed).2 = Ok (items, OK)
             ∧ mkItem Sample.token1 "alice@example.com" (PStr "great") ∈ items.
Proof.
  intros d.
  assert (feedback (db Sample.alice_invited) !! Sample.token1 = Some Sample.alice) as F
    by (vm_compute; reflexivity).
  assert (submit_feedback Sample.env (PDict d) Sample.alice_invited =
            (Sample.alice_redeemed, Ok (Msg "Feedback submitted successfully!", OK)))
    as H by (vm_compute; reflexivity).
  split; [exact F|]. split; [exact H|].
  exact (acknowledged_feedback_is_listed Sample.env d Sample.token1 "great"
           Sample.alice_invited Sample.alice_redeemed Sample.alice
           eq_refl eq_refl F H).
Defined.

Lemma listed_feedback_has_a_redeemed_token_witness :
  let items := [mkItem Sample.token1 "alice@example.com" (PStr "great")] in
  reachable Sample.env Sample.alice_redeemed
  ∧ (get_all_feedbacks Sample.alice_redeemed).2 = Ok (items, OK)
  ∧ feedback (db Sample.alice_redeemed) !! Sample.token1 =
      Some (Feedback.mk "alice@example.com" true).
Proof.
  intros items.
  assert ((get_all_feedbacks Sample.alice_redeemed).2 = Ok (items, OK)) as L
    by (vm_compute; reflexivity).
  split; [exact reachable_alice_redeemed|]. split; [exact L|].
  apply (listed_feedback_has_a_redeemed_token Sample.env Sample.alice_redeemed items
           Sample.token1 "alice@example.com" (PStr "great")
           reachable_alice_redeemed L).
  apply list_elem_of_here.
Defined.

Lemma listing_counts_the_redeemed_tokens_witness :
  let items := [mkItem Sample.token1 "alice@example.com" (PStr "great")] in
  reachable Sample.env Sample.alice_redeemed
  ∧ (get_all_feedbacks Sample.alice_redeemed).2 = Ok (items, OK)
  ∧ length items = size (redeemed_tokens (feedback (db Sample.alice_redeemed))).
Proof.
  intros items.
  assert ((get_all_feedbacks Sample.alice_redeemed).2 = Ok (items, OK)) as L
    by (vm_compute; reflexivity).
  split; [exact reachable_alice_redeemed|]. split; [exact L|].
  exact (listing_counts_the_redeemed_tokens Sample.env Sample.alice_redeemed items
           reachable_alice_redeemed L).
Defined.

Lemma is_valid_uuid_accepts_canonical_witness :
  canonical Sample.token1 = true ∧ is_valid_uuid (PStr Sample.token1) = Ok true.
Proof.
  assert (canonical Sample.token1 = true) as K by (vm_compute; reflexivity).
  split; [exact K|]. exact (is_valid_uuid_accepts_canonical Sample.token1 K).
Defined.

Lemma braced_uuid_passes_but_is_not_found_witness :
  let braced := "{" +:+ Sample.token1 +:+ "}" in
  let d := [("uuid", PStr braced); ("feedback", PStr "great")] in
  canonical Sample.token1 = true
  ∧ feedback (db Sample.alice_invited) !! Sample.token1 = Some Sample.alice
  ∧ feedback (db Sample.alice_invited) !! braced = None
  ∧ is_valid_uuid (PStr braced) = Ok true
  ∧ submit_feedback Sample.env (PDict d) Sample.alice_invited =
      (Sample.alice_invited,
       Ok (Msg ("UUID '" +:+ braced +:+ "' not found."), NOT_FOUND)).
Proof.
  intros braced d.
  assert (canonical Sample.token1 = true) as K by (vm_compute; reflexivity).
  assert (feedback (db Sample.alice_invited) !! Sample.token1 = Some Sample.alice) as F
    by (vm_compute; reflexivity).
  assert (feedback (db Sample.alice_invited) !! braced = None) as N
    by (vm_compute; reflexivity).
  split; [exact K|]. split; [exact F|]. split; [exact N|].
  exact (braced_uuid_passes_but_is_not_found Sample.env d Sample.token1 (PStr "great")
           Sample.alice Sample.alice_invited K eq_refl eq_refl F N).
Defined.

Lemma feedback_form_does_not_check_the_uuid_witness :
  "not-a-uuid" ≠ ""
  ∧ is_valid_uuid (PStr "not-a-uuid") = Ok false
  ∧ feedback_form (Some "not-a-uuid") = (Rendered "feedback_form.html", OK)
  ∧ submit_feedback Sample.env (feedback_request "not-a-uuid" (PStr "hello"))
      Sample.alice_invited =
      (Sample.alice_invited, Ok (Msg "Invalid UUID format.", BAD_REQUEST)).
Proof.
  split; [discriminate|]. split; [vm_compute; reflexivity|].
  apply (feedback_form_does_not_check_the_uuid Sample.env "not-a-uuid" (PStr "hello")
           Sample.alice_invited); [discriminate | vm_compute; reflexivity].
Defined.

(** ** The order of the messages *)

Section Order.

Context (env : Env).

Lemma send_invite_body_success email succ err w w1 s1 e1 :
  send_invite_body env email succ err w = (w1, Ok (s1, e1)) →
  s1 = succ ∨ s1 = (succ ++ ["Invite sent successfully to " +:+ email])%list.
Proof.
  destruct (first (filter_by_email email (feedback (db w)))) as [row|] eqn:E.
  - apply first_filter_by_email_Some in E.
    rewrite (send_invite_body_duplicate env email succ err w E).
    intros [= <- <- <-]. by left.
  - apply first_filter_by_email_None in E.
    destruct (feedback (db w) !! uuid4 env (uuid_calls w)) as [row|] eqn:F.
    + rewrite (send_invite_body_collision env email succ err w E) by eauto.
      intros [=].
    + rewrite (send_invite_body_fresh env email succ err w E F).
      destruct (mail_send env _ _); intros [= <- <- <-]; auto.
Qed.

Lemma send_invite_loop_success emails succ err w w1 s1 e1 :
  send_invite_loop env emails succ err w = (w1, Ok (s1, e1)) →
  ∃ sent, sublist sent emails
          ∧ s1 = (succ ++ ((λ e, "Invite sent successfully to " +:+ e) <$> sent))%list.
Proof.
  revert succ err w. induction emails as [|email emails IH]; intros succ err w.
  - simpl. unfold ret. intros [= <- <- <-]. exists []. split; [done|].
    by rewrite app_nil_r.
  - simpl. unfold bind.
    destruct (send_invite_body env email succ err w) as [w2 [[s2 e2]|e]] eqn:B;
      [|intros [=]].
    intros L. apply IH in L as (sent & Sub & ->).
    apply send_invite_body_success in B as [->| ->].
    + exists sent. split; [by apply sublist_cons|done].
    + exists (email :: sent). split; [by apply sublist_skip|].
      by rewrite <- app_assoc.
Qed.

(** X20. The success messages come in the order of the request: they are
    the invitation-sent messages of a subsequence of the addresses, each
    address at most as often as it occurs in the request. *)
Theorem send_invite_successes_follow_the_request d (l : list string) w w1 succ err c :
  dict_get d "emails" = Some (PList (PStr <$> l)) →
  send_invite env (PDict d) w = (w1, Ok (Batch succ err, c)) →
  ∃ sent, sublist sent l
          ∧ succ = (λ e, "Invite sent successfully to " +:+ e) <$> sent.
Proof.
  intros H R. destruct l as [|x l].
  { revert R. unfold send_invite, bind, lift, ret. simpl. rewrite H.
    rewrite bool_decide_eq_true_2 by eauto. simpl. intros [=]. }
  rewrite (send_invite_list env d (x :: l) w H) in R by done.
  destruct (send_invite_loop env (x :: l) [] [] w) as [w2 [[s2 e2]|e]] eqn:L;
    [|by inversion R].
  injection R as <- <- <- <-.
  by apply send_invite_loop_success in L as (sent & Sub & ->); eauto.
Qed.

End Order.

Lemma send_invite_successes_follow_the_request_witness :
  let d := [("emails", PList [PStr "alice@example.com"; PStr "alice@example.com"])] in
  let w1 := (send_invite Sample.env (PDict d) init).1 in
  send_invite Sample.env (PDict d) init =
    (w1, Ok (Batch ["Invite sent successfully to alice@example.com"]
                   ["Email 'alice@example.com' already invited!"], OK))
  ∧ ∃ sent, sublist sent ["alice@example.com"; "alice@example.com"]
            ∧ ["Invite sent successfully to alice@example.com"]
              = (λ e, "Invite sent successfully to " +:+ e) <$> sent.
Proof.
  intros d w1.
  assert (send_invite Sample.env (PDict d) init =
            (w1, Ok (Batch ["Invite sent successfully to alice@example.com"]
                           ["Email 'alice@example.com' already invited!"], OK))) as R
    by (vm_compute; reflexivity).
  split; [exact R|].
  exact (send_invite_successes_follow_the_request Sample.env d
           ["alice@example.com"; "alice@example.com"] init w1 _ _ OK eq_refl R).
Defined.
